(** * GateKeeper backend: access control and sync core

    A shallow embedding of the Go packages [models], [auth], [db] and
    [handlers] of the GateKeeper API, and the properties of its
    authorization and synchronization rules.

    Conventions of the embedding:
    - a Go [string] is a Rocq [string] (a sequence of bytes); [len] is
      [String.length];
    - a [time.Time] is an instant on one time line, a [Z] that counts from
      the zero [Time];
    - the Firestore collections are finite maps from document id to
      document; every Firestore call may fail, which is modelled by a
      schedule of outcomes carried by the client (see [db.FirestoreDB]);
    - an HTTP handler is a function from the store and the decoded request
      to the new store and the response. *)

From Stdlib Require Import ZArith Ascii String.
From stdpp Require Import gmap strings list fin_maps.

Local Open Scope string_scope.
Local Open Scope Z_scope.
Local Open Scope list_scope.

(** ** External primitives

    [bcrypt.GenerateFromPassword] and [time.Parse(time.RFC3339, _)] belong
    to libraries outside the repository.  The development is parametric in
    them: [None] is the error return. *)

Class Externals := {
  bcrypt_GenerateFromPassword : string → Z → option string;
  time_Parse_RFC3339 : string → option Z
}.

(** ** Package models *)

Module models.

Definition Time := Z.

(** The zero value of [time.Time], which a field left out of a JSON body
    keeps. *)
Definition zeroTime : Time := 0.

(** [type UserRole string]: any string can be stored as a role. *)
Definition UserRole := string.
Definition RoleAdmin : UserRole := "ADMIN".
Definition RoleSupervisor : UserRole := "SUPERVISOR".
Definition RoleGateOperator : UserRole := "GATE_OPERATOR".

Definition EntryType := string.
Definition EntryTypePersonnel : EntryType := "PERSONNEL".
Definition EntryTypeTruck : EntryType := "TRUCK".
Definition EntryTypeCar : EntryType := "CAR".
Definition EntryTypeOther : EntryType := "OTHER".

Definition EntryStatus := string.
Definition StatusActive : EntryStatus := "ACTIVE".
Definition StatusDeleted : EntryStatus := "DELETED".

(** [Payload] is the open attribute map of an entry; its values are kept
    in wire form, no code below looks inside. *)
Record Entry := {
  RecordID : string;
  CheckpointID : string;
  EntryType_ : EntryType;
  LoggingUserID : string;
  ClientTS : Time;
  UpdatedAt : Time;
  CreatedAt : Time;
  Status : EntryStatus;
  Payload : list (string * string)
}.

Record User := {
  UserID : string;
  Username : string;
  Role : UserRole;
  AllowedCheckpoints : list string;
  SupervisorID : string;
  ManagedOperators : list string;
  LastLogin : Time
}.

Definition with_ManagedOperators (u : User) (l : list string) : User :=
  {| UserID := UserID u; Username := Username u; Role := Role u;
     AllowedCheckpoints := AllowedCheckpoints u;
     SupervisorID := SupervisorID u; ManagedOperators := l;
     LastLogin := LastLogin u |}.

End models.

Export models.

(** ** Package auth (password policy) *)

Module auth.

Definition MinPasswordLength : Z := 8.
Definition BcryptCost : Z := 14.

Inductive PasswordError :=
| ErrTooShort        (* "password must be at least 8 characters" *)
| ErrNoLetter        (* "password must contain at least one letter" *)
| ErrNoNumber        (* "password must contain at least one number" *)
| ErrHashFailed.     (* "failed to hash password: ..." *)

Definition message (e : PasswordError) : string :=
  match e with
  | ErrTooShort => "password must be at least 8 characters"
  | ErrNoLetter => "password must contain at least one letter"
  | ErrNoNumber => "password must contain at least one number"
  | ErrHashFailed => "failed to hash password"
  end.

Definition len (s : string) : Z := Z.of_nat (String.length s).

(** [HashPassword]: the length test, then bcrypt. *)
Definition HashPassword `{Externals} (password : string)
  : string + PasswordError :=
  if len password <? MinPasswordLength then inr ErrTooShort
  else match bcrypt_GenerateFromPassword password BcryptCost with
       | Some bytes => inl bytes
       | None => inr ErrHashFailed
       end.

Definition isLetter (char : ascii) : bool :=
  let c := Z.of_N (N_of_ascii char) in
  ((97 <=? c) && (c <=? 122)) || ((65 <=? c) && (c <=? 90)).

Definition isNumber (char : ascii) : bool :=
  let c := Z.of_N (N_of_ascii char) in
  (48 <=? c) && (c <=? 57).

(** The loop [for _, char := range password] with its two flags.  The Go
    loop walks the runes of the UTF-8 decoding; a byte below 128 is always
    a rune of its own and every other rune is above 127, so the two flags
    are the same when the loop walks the bytes. *)
Fixpoint scanPassword (password : string) (hasLetter hasNumber : bool)
  : bool * bool :=
  match password with
  | EmptyString => (hasLetter, hasNumber)
  | String char rest =>
      let hasLetter := if isLetter char then true else hasLetter in
      let hasNumber := if isNumber char then true else hasNumber in
      scanPassword rest hasLetter hasNumber
  end.

(** [ValidatePasswordStrength]: [None] is the nil error. *)
Definition ValidatePasswordStrength (password : string)
  : option PasswordError :=
  if len password <? MinPasswordLength then Some ErrTooShort
  else
    let '(hasLetter, hasNumber) := scanPassword password false false in
    if negb hasLetter then Some ErrNoLetter
    else if negb hasNumber then Some ErrNoNumber
    else None.

(** The policy in the words of the specification. *)
Definition has_letter (password : string) : Prop :=
  ∃ c, c ∈ list_ascii_of_string password ∧ isLetter c = true.
Definition has_digit (password : string) : Prop :=
  ∃ c, c ∈ list_ascii_of_string password ∧ isNumber c = true.
Definition meets_policy (password : string) : Prop :=
  MinPasswordLength <= len password ∧ has_letter password
  ∧ has_digit password.

End auth.

(** ** Package db (the Firestore client)

    A collection is a finite map from document id to document.  Each
    method of [FirestoreDB] is one remote call, which succeeds or fails for
    reasons outside the program (network, quota, an id the service
    refuses).  The client state carries the outcomes of the calls to come:
    a call takes the head of [outcomes]; [false] makes it return an error
    and leave the collections alone; an empty schedule means that every
    further call succeeds. *)

Module db.

Record PasswordDoc := {
  user_id : string;
  password_hash : string;
  updated_at : Time
}.

Record FirestoreDB := {
  entries : gmap string Entry;
  users : gmap string User;
  passwords : gmap string PasswordDoc;
  outcomes : list bool
}.

Inductive error :=
| nil
| failed (what : string).

Definition with_entries (d : FirestoreDB) (m : gmap string Entry) :=
  {| entries := m; users := users d; passwords := passwords d;
     outcomes := outcomes d |}.
Definition with_users (d : FirestoreDB) (m : gmap string User) :=
  {| entries := entries d; users := m; passwords := passwords d;
     outcomes := outcomes d |}.
Definition with_passwords (d : FirestoreDB) (m : gmap string PasswordDoc) :=
  {| entries := entries d; users := users d; passwords := m;
     outcomes := outcomes d |}.

(** One remote call: its outcome and the client afterwards. *)
Definition call (d : FirestoreDB) : bool * FirestoreDB :=
  match outcomes d with
  | [] => (true, d)
  | ok :: rest =>
      (ok, {| entries := entries d; users := users d;
              passwords := passwords d; outcomes := rest |})
  end.

(** The documents of a collection, as an iterator yields them.  Nothing
    below depends on their order. *)
Definition Documents {A} (coll : gmap string A) : list A :=
  (map_to_list coll).*2.

(** [Doc(entry.RecordID).Set(ctx, entry)]: create or overwrite. *)
Definition CreateEntry (d : FirestoreDB) (entry : Entry)
  : FirestoreDB * error :=
  let '(ok, d) := call d in
  if ok then (with_entries d (<[RecordID entry := entry]> (entries d)), nil)
  else (d, failed "failed to create entry").

Definition GetEntry (d : FirestoreDB) (recordID : string)
  : FirestoreDB * (Entry + error) :=
  let '(ok, d) := call d in
  if ok then
    match entries d !! recordID with
    | Some entry => (d, inl entry)
    | None => (d, inr (failed "failed to get entry"))
    end
  else (d, inr (failed "failed to get entry")).

Definition GetAllEntries (d : FirestoreDB)
  : FirestoreDB * (list Entry + error) :=
  let '(ok, d) := call d in
  if ok then (d, inl (Documents (entries d)))
  else (d, inr (failed "failed to iterate entries")).

(** [Where("created_at", ">", since)]. *)
Definition GetEntriesSince (d : FirestoreDB) (since : Time)
  : FirestoreDB * (list Entry + error) :=
  let '(ok, d) := call d in
  if ok then
    (d, inl (filter (λ entry, since < CreatedAt entry)
               (Documents (entries d))))
  else (d, inr (failed "failed to iterate entries")).

Definition CreateUser (d : FirestoreDB) (user : User)
  : FirestoreDB * error :=
  let '(ok, d) := call d in
  if ok then (with_users d (<[UserID user := user]> (users d)), nil)
  else (d, failed "failed to create user").

Definition GetUser (d : FirestoreDB) (userID : string)
  : FirestoreDB * (User + error) :=
  let '(ok, d) := call d in
  if ok then
    match users d !! userID with
    | Some user => (d, inl user)
    | None => (d, inr (failed "failed to get user"))
    end
  else (d, inr (failed "failed to get user")).

(** [Where("username", "==", username).Limit(1)]. *)
Definition GetUserByUsername (d : FirestoreDB) (username : string)
  : FirestoreDB * (User + error) :=
  let '(ok, d) := call d in
  if ok then
    match filter (λ user, Username user = username) (Documents (users d))
    with
    | user :: _ => (d, inl user)
    | [] => (d, inr (failed "user not found"))
    end
  else (d, inr (failed "failed to get user")).

Definition GetAllUsers (d : FirestoreDB)
  : FirestoreDB * (list User + error) :=
  let '(ok, d) := call d in
  if ok then (d, inl (Documents (users d)))
  else (d, inr (failed "failed to iterate users")).

Definition UpdateUser (d : FirestoreDB) (user : User)
  : FirestoreDB * error :=
  let '(ok, d) := call d in
  if ok then (with_users d (<[UserID user := user]> (users d)), nil)
  else (d, failed "failed to update user").

Definition DeleteUser (d : FirestoreDB) (userID : string)
  : FirestoreDB * error :=
  let '(ok, d) := call d in
  if ok then (with_users d (delete userID (users d)), nil)
  else (d, failed "failed to delete user").

(** [now] is the reading of [time.Now()] stored with the hash. *)
Definition StorePasswordHash (d : FirestoreDB) (now : Time)
    (userID passwordHash : string) : FirestoreDB * error :=
  let '(ok, d) := call d in
  if ok then
    (with_passwords d
       (<[userID := {| user_id := userID; password_hash := passwordHash;
                       updated_at := now |}]> (passwords d)), nil)
  else (d, failed "failed to store password hash").

Definition GetPasswordHash (d : FirestoreDB) (userID : string)
  : FirestoreDB * (string + error) :=
  let '(ok, d) := call d in
  if ok then
    match passwords d !! userID with
    | Some doc => (d, inl (password_hash doc))
    | None => (d, inr (failed "failed to get password hash"))
    end
  else (d, inr (failed "failed to get password hash")).

End db.

(** ** Package handlers *)

Module handlers.

Import db.

(** What a handler gets from [*http.Request]: the method, the user that the
    authentication middleware put in the context ([None] when the context
    has none), the query parameters ([""] for an absent key) and the JSON
    body decoded into the request struct ([None] when decoding fails). *)
Record Request (B : Type) := {
  Method : string;
  ContextUser : option User;
  Query : string → string;
  Body : option B
}.
Arguments Method {B} _.
Arguments ContextUser {B} _.
Arguments Query {B} _.
Arguments Body {B} _.

(** What a handler writes: [writeError w message status], or a JSON body
    with status 200. *)
Inductive Response (A : Type) :=
| Error (message : string) (status : Z)
| OK (body : A).
Arguments Error {A} _ _.
Arguments OK {A} _.

Definition StatusBadRequest : Z := 400.
Definition StatusUnauthorized : Z := 401.
Definition StatusForbidden : Z := 403.
Definition StatusNotFound : Z := 404.
Definition StatusMethodNotAllowed : Z := 405.
Definition StatusConflict : Z := 409.
Definition StatusInternalServerError : Z := 500.

Definition status {A} (r : Response A) : Z :=
  match r with
  | Error _ s => s
  | OK _ => 200
  end.

(** The loop
    [for _, x := range xs { if x == id { flag = true; break } }],
    written at each place where a handler looks an id up in a slice
    ([hasAccess], [found], [canReset] are its flags). *)
Fixpoint rangeFinds (xs : list string) (id : string) : bool :=
  match xs with
  | [] => false
  | x :: rest => if decide (x = id) then true else rangeFinds rest id
  end.

(** The loop
    [for _, opID := range ops { if opID != id { newList = append(newList, opID) } }]. *)
Fixpoint rangeWithout (ops : list string) (id : string)
    (newList : list string) : list string :=
  match ops with
  | [] => newList
  | opID :: rest =>
      if decide (opID ≠ id) then rangeWithout rest id (newList ++ [opID])
      else rangeWithout rest id newList
  end.

(** *** sync.go *)

Record SyncPushRequest := { Entries : list Entry }.

Record SyncPushResponse := {
  Success : bool;
  Accepted : Z;
  Rejected : Z;
  RejectedIDs : list string;
  Message : string
}.

Record SyncPullResponse := {
  PullEntries : list Entry;
  Count : Z
}.

(** The body of [for _, entry := range req.Entries] in [Push], with the
    three counters of the handler.  The counters are Go [int]s that count
    elements of one slice, so they stay below its length and never wrap. *)
Fixpoint pushLoop (user : User) (es : list Entry) (d : FirestoreDB)
    (accepted rejected : Z) (rejectedIDs : list string)
  : FirestoreDB * (Z * Z * list string) :=
  match es with
  | [] => (d, (accepted, rejected, rejectedIDs))
  | entry :: rest =>
      if decide (LoggingUserID entry ≠ UserID user) then
        pushLoop user rest d accepted (rejected + 1)
          (rejectedIDs ++ [RecordID entry])
      else if bool_decide (Role user = RoleGateOperator)
                && negb (rangeFinds (AllowedCheckpoints user)
                           (CheckpointID entry)) then
        pushLoop user rest d accepted (rejected + 1)
          (rejectedIDs ++ [RecordID entry])
      else
        match CreateEntry d entry with
        | (d, failed _) =>
            pushLoop user rest d accepted (rejected + 1)
              (rejectedIDs ++ [RecordID entry])
        | (d, nil) =>
            pushLoop user rest d (accepted + 1) rejected rejectedIDs
        end
  end.

Definition Push (d : FirestoreDB) (r : Request SyncPushRequest)
  : FirestoreDB * Response SyncPushResponse :=
  if decide (Method r ≠ "POST") then
    (d, Error "Method not allowed" StatusMethodNotAllowed)
  else
    match ContextUser r with
    | None => (d, Error "User not found in context" StatusUnauthorized)
    | Some user =>
        match Body r with
        | None => (d, Error "Invalid request body" StatusBadRequest)
        | Some req =>
            let '(d, (accepted, rejected, rejectedIDs)) :=
              pushLoop user (Entries req) d 0 0 [] in
            (d, OK {| Success := bool_decide (rejected = 0);
                      Accepted := accepted;
                      Rejected := rejected;
                      RejectedIDs := rejectedIDs;
                      Message := "Sync completed" |})
        end
    end.

(** The supervisor branch of [filterEntriesByRole]: for each entry, look
    for its author among the managed operators and stop at the first hit. *)
Fixpoint filterManaged (entries : list Entry) (operators : list string)
    (filtered : list Entry) : list Entry :=
  match entries with
  | [] => filtered
  | entry :: rest =>
      if rangeFinds operators (LoggingUserID entry)
      then filterManaged rest operators (filtered ++ [entry])
      else filterManaged rest operators filtered
  end.

(** The gate operator branch. *)
Fixpoint filterOwn (entries : list Entry) (userID : string)
    (filtered : list Entry) : list Entry :=
  match entries with
  | [] => filtered
  | entry :: rest =>
      if decide (LoggingUserID entry = userID)
      then filterOwn rest userID (filtered ++ [entry])
      else filterOwn rest userID filtered
  end.

Definition filterEntriesByRole (entries : list Entry) (user : User)
  : list Entry :=
  if decide (Role user = RoleAdmin) then entries
  else if decide (Role user = RoleSupervisor) then
    if decide (length (ManagedOperators user) = 0%nat) then []
    else filterManaged entries (ManagedOperators user) []
  else if decide (Role user = RoleGateOperator) then
    filterOwn entries (UserID user) []
  else [].

Definition Pull `{Externals} (d : FirestoreDB) (r : Request unit)
  : FirestoreDB * Response SyncPullResponse :=
  if decide (Method r ≠ "GET") then
    (d, Error "Method not allowed" StatusMethodNotAllowed)
  else
    match ContextUser r with
    | None => (d, Error "User not found in context" StatusUnauthorized)
    | Some user =>
        let sinceParam := Query r "since" in
        let respond (res : FirestoreDB * (list Entry + error)) :=
          match res with
          | (d, inr _) =>
              (d, Error "Failed to retrieve entries"
                    StatusInternalServerError)
          | (d, inl entries) =>
              let filteredEntries := filterEntriesByRole entries user in
              (d, OK {| PullEntries := filteredEntries;
                        Count := Z.of_nat (length filteredEntries) |})
          end in
        if decide (sinceParam ≠ "") then
          match time_Parse_RFC3339 sinceParam with
          | None =>
              (d, Error "Invalid 'since' parameter format. Use RFC3339"
                    StatusBadRequest)
          | Some sinceTime => respond (GetEntriesSince d sinceTime)
          end
        else respond (GetAllEntries d)
    end.

(** *** admin.go

    A nil slice and an empty slice behave alike in every loop and [append]
    below, so [ManagedOperators] is a list and the handlers' replacement of
    nil by [[]string{}] disappears.  [AllowedCheckpoints] of an update
    request is tested against nil, so it is an [option]. *)

Record CreateUserRequest := {
  newUsername : string;
  newPassword : string;
  newRole : UserRole;
  newAllowedCheckpoints : list string;
  newSupervisorID : string
}.

Record UpdateUserRequest := {
  updUserID : string;
  updRole : UserRole;
  updAllowedCheckpoints : option (list string);
  updSupervisorID : string
}.

Record DeleteUserRequest := { delUserID : string }.

(** Add [userID] to the supervisor's list unless the loop finds it there;
    the result of the write is dropped, as in the source. *)
Definition addManaged (d : FirestoreDB) (supervisorID userID : string)
  : FirestoreDB :=
  match GetUser d supervisorID with
  | (d, inl supervisor) =>
      if rangeFinds (ManagedOperators supervisor) userID then d
      else
        (UpdateUser d
           (with_ManagedOperators supervisor
              (ManagedOperators supervisor ++ [userID]))).1
  | (d, inr _) => d
  end.

(** Take [userID] out of the supervisor's list and write the supervisor
    back; the result of the write is dropped, as in the source. *)
Definition removeManaged (d : FirestoreDB) (supervisorID userID : string)
  : FirestoreDB :=
  match GetUser d supervisorID with
  | (d, inl supervisor) =>
      (UpdateUser d
         (with_ManagedOperators supervisor
            (rangeWithout (ManagedOperators supervisor) userID []))).1
  | (d, inr _) => d
  end.

(** [now] and [nowStored] are the two readings of the clock, for
    [LastLogin] and for the password document. *)
Definition CreateUser `{Externals} (d : FirestoreDB) (now nowStored : Time)
    (r : Request CreateUserRequest) : FirestoreDB * Response User :=
  if decide (Method r ≠ "POST") then
    (d, Error "Method not allowed" StatusMethodNotAllowed)
  else
    match ContextUser r with
    | None => (d, Error "User not found in context" StatusUnauthorized)
    | Some adminUser =>
    match Body r with
    | None => (d, Error "Invalid request body" StatusBadRequest)
    | Some req =>
    if decide (newUsername req = "" ∨ newPassword req = "") then
      (d, Error "Username and password are required" StatusBadRequest)
    else
    match auth.ValidatePasswordStrength (newPassword req) with
    | Some err => (d, Error (auth.message err) StatusBadRequest)
    | None =>
    match GetUserByUsername d (newUsername req) with
    | (d, inl existingUser) =>
        (d, Error "Username already exists" StatusConflict)
    | (d, inr _) =>
    let userID := "user-" +:+ newUsername req in
    let user := {| UserID := userID;
                   Username := newUsername req;
                   Role := newRole req;
                   AllowedCheckpoints := newAllowedCheckpoints req;
                   SupervisorID := newSupervisorID req;
                   ManagedOperators := [];
                   LastLogin := now |} in
    match db.CreateUser d user with
    | (d, failed _) =>
        (d, Error "Failed to create user" StatusInternalServerError)
    | (d, nil) =>
    match auth.HashPassword (newPassword req) with
    | inr _ => (d, Error "Failed to hash password" StatusInternalServerError)
    | inl passwordHash =>
    match StorePasswordHash d nowStored userID passwordHash with
    | (d, failed _) =>
        (d, Error "Failed to store password" StatusInternalServerError)
    | (d, nil) =>
        let d :=
          if decide (newRole req = RoleGateOperator
                     ∧ newSupervisorID req ≠ "")
          then addManaged d (newSupervisorID req) userID
          else d in
        (d, OK user)
    end end end end end end end.

Definition UpdateUser (d : FirestoreDB) (r : Request UpdateUserRequest)
  : FirestoreDB * Response User :=
  if decide (Method r ≠ "PUT") then
    (d, Error "Method not allowed" StatusMethodNotAllowed)
  else
    match ContextUser r with
    | None => (d, Error "User not found in context" StatusUnauthorized)
    | Some adminUser =>
    match Body r with
    | None => (d, Error "Invalid request body" StatusBadRequest)
    | Some req =>
    if decide (updUserID req = "") then
      (d, Error "User ID is required" StatusBadRequest)
    else
    match GetUser d (updUserID req) with
    | (d, inr _) => (d, Error "User not found" StatusNotFound)
    | (d, inl user) =>
    let oldSupervisorID := SupervisorID user in
    let user :=
      {| UserID := UserID user;
         Username := Username user;
         Role := if decide (updRole req ≠ "") then updRole req
                 else Role user;
         AllowedCheckpoints :=
           match updAllowedCheckpoints req with
           | Some cps => cps
           | None => AllowedCheckpoints user
           end;
         SupervisorID :=
           if decide (updSupervisorID req ≠ "") then updSupervisorID req
           else SupervisorID user;
         ManagedOperators := ManagedOperators user;
         LastLogin := LastLogin user |} in
    match db.UpdateUser d user with
    | (d, failed _) =>
        (d, Error "Failed to update user" StatusInternalServerError)
    | (d, nil) =>
        let d :=
          if decide (oldSupervisorID ≠ updSupervisorID req) then
            let d :=
              if decide (oldSupervisorID ≠ "")
              then removeManaged d oldSupervisorID (updUserID req)
              else d in
            if decide (updSupervisorID req ≠ "")
            then addManaged d (updSupervisorID req) (updUserID req)
            else d
          else d in
        (d, OK user)
    end end end end.

Definition DeleteUser (d : FirestoreDB) (r : Request DeleteUserRequest)
  : FirestoreDB * Response string :=
  if decide (Method r ≠ "DELETE") then
    (d, Error "Method not allowed" StatusMethodNotAllowed)
  else
    match ContextUser r with
    | None => (d, Error "User not found in context" StatusUnauthorized)
    | Some adminUser =>
    match Body r with
    | None => (d, Error "Invalid request body" StatusBadRequest)
    | Some req =>
    if decide (delUserID req = "") then
      (d, Error "User ID is required" StatusBadRequest)
    else if decide (delUserID req = UserID adminUser) then
      (d, Error "Cannot delete your own account" StatusBadRequest)
    else
    match GetUser d (delUserID req) with
    | (d, inr _) => (d, Error "User not found" StatusNotFound)
    | (d, inl user) =>
    let d :=
      if decide (SupervisorID user ≠ "")
      then removeManaged d (SupervisorID user) (delUserID req)
      else d in
    match db.DeleteUser d (delUserID req) with
    | (d, failed _) =>
        (d, Error "Failed to delete user" StatusInternalServerError)
    | (d, nil) => (d, OK "User deleted successfully")
    end end end end.

(** *** supervisor.go *)

Record ResetPasswordRequest := {
  resetUserID : string;
  resetNewPassword : string
}.

(** [now] is the clock reading stored with the new hash. *)
Definition ResetPassword `{Externals} (d : FirestoreDB) (now : Time)
    (r : Request ResetPasswordRequest) : FirestoreDB * Response string :=
  if decide (Method r ≠ "POST") then
    (d, Error "Method not allowed" StatusMethodNotAllowed)
  else
    match ContextUser r with
    | None => (d, Error "User not found in context" StatusUnauthorized)
    | Some supervisor =>
    match Body r with
    | None => (d, Error "Invalid request body" StatusBadRequest)
    | Some req =>
    if decide (resetUserID req = "" ∨ resetNewPassword req = "") then
      (d, Error "User ID and new password are required" StatusBadRequest)
    else
    match auth.ValidatePasswordStrength (resetNewPassword req) with
    | Some err => (d, Error (auth.message err) StatusBadRequest)
    | None =>
    match GetUser d (resetUserID req) with
    | (d, inr _) => (d, Error "User not found" StatusNotFound)
    | (d, inl targetUser) =>
    if bool_decide (Role supervisor = RoleSupervisor)
       && negb (rangeFinds (ManagedOperators supervisor) (resetUserID req))
    then
      (d, Error "You can only reset passwords for operators you manage"
            StatusForbidden)
    else
    match auth.HashPassword (resetNewPassword req) with
    | inr _ => (d, Error "Failed to hash password" StatusInternalServerError)
    | inl passwordHash =>
    match StorePasswordHash d now (resetUserID req) passwordHash with
    | (d, failed _) =>
        (d, Error "Failed to update password" StatusInternalServerError)
    | (d, nil) => (d, OK "Password reset successfully")
    end end end end end end.

End handlers.

(** ** database.go (the in-memory store of the first prototype)

    [mockQueryUpdatedSince] is the delta query of the prototype, over the
    map [mockDB]. *)

Module mock.

Import handlers.

Definition mockQueryUpdatedSince (mockDB : gmap string Entry)
    (lastSync : Time) (allowedCheckpoints : list string) : list Entry :=
  let isGlobalAdmin := bool_decide (length allowedCheckpoints = 0%nat) in
  foldl
    (λ results entry,
       if decide (lastSync < UpdatedAt entry) then
         if isGlobalAdmin then results ++ [entry]
         else if rangeFinds allowedCheckpoints (CheckpointID entry)
              then results ++ [entry]
              else results
       else results)
    [] (db.Documents mockDB).

End mock.

Import db handlers.

(** ** The rules in the words of the specification *)

Module spec.

(** The visibility table of the access control engine. *)
Definition visible_entries (all_entries : list Entry) (requester : User)
  : list Entry :=
  if decide (Role requester = RoleAdmin) then all_entries
  else if decide (Role requester = RoleSupervisor) then
    if decide (ManagedOperators requester = []) then []
    else filter (λ e, LoggingUserID e ∈ ManagedOperators requester)
           all_entries
  else if decide (Role requester = RoleGateOperator) then
    filter (λ e, LoggingUserID e = UserID requester) all_entries
  else [].

(** The same table, entry by entry. *)
Definition visible (requester : User) (e : Entry) : Prop :=
  Role requester = RoleAdmin
  ∨ (Role requester = RoleSupervisor
     ∧ LoggingUserID e ∈ ManagedOperators requester)
  ∨ (Role requester = RoleGateOperator
     ∧ LoggingUserID e = UserID requester).

(** Write authorization of one pushed entry. *)
Definition write_authorized (requester : User) (e : Entry) : Prop :=
  LoggingUserID e = UserID requester
  ∧ (Role requester = RoleGateOperator
     → CheckpointID e ∈ AllowedCheckpoints requester).

#[global] Instance write_authorized_dec requester e :
  Decision (write_authorized requester e) :=
  ltac:(unfold write_authorized; apply _).

(** The supervisor/operator relationship over the users collection: ids are
    the documents' own and never empty; every id in a [managed_operators]
    list is a user whose [supervisor_id] points back; no list repeats an
    id. *)
Definition users_wf (m : gmap string User) : Prop :=
  m !! "" = None ∧ ∀ k u, m !! k = Some u → UserID u = k.

Definition managed_point_back (m : gmap string User) : Prop :=
  ∀ sid s op, m !! sid = Some s → op ∈ ManagedOperators s →
    ∃ o, m !! op = Some o ∧ SupervisorID o = sid.

Definition managed_nodup (m : gmap string User) : Prop :=
  ∀ sid s, m !! sid = Some s → NoDup (ManagedOperators s).

Definition linked (m : gmap string User) : Prop :=
  users_wf m ∧ managed_point_back m ∧ managed_nodup m.

End spec.

Import spec.

(** ** Auxiliary definitions for the sync loop *)

(** The client after one call, whatever its outcome. *)
Definition advance (d : FirestoreDB) : FirestoreDB := (call d).2.

(** Upserts of a list of entries, in order. *)
Definition persist_all (m : gmap string Entry) (es : list Entry)
  : gmap string Entry :=
  foldl (λ m e, <[RecordID e := e]> m) m es.

(** The last entry of [es] with record id [k]. *)
Fixpoint latest (k : string) (es : list Entry) : option Entry :=
  match es with
  | [] => None
  | e :: rest =>
      match latest k rest with
      | Some x => Some x
      | None => if decide (RecordID e = k) then Some e else None
      end
  end.

(** ** Auxiliary definitions for the relationship repair *)

(** What [removeManaged] and [addManaged] do to the users collection when
    the store answers. *)
Definition unlink (m : gmap string User) (supervisorID userID : string)
  : gmap string User :=
  match m !! supervisorID with
  | Some s =>
      <[UserID s :=
          with_ManagedOperators s
            (filter (λ opID, opID ≠ userID) (ManagedOperators s))]> m
  | None => m
  end.

Definition link (m : gmap string User) (supervisorID userID : string)
  : gmap string User :=
  match m !! supervisorID with
  | Some s =>
      if rangeFinds (ManagedOperators s) userID then m
      else
        <[UserID s :=
            with_ManagedOperators s (ManagedOperators s ++ [userID])]> m
  | None => m
  end.

(** Pointing back, except that [x] may still be listed by [S]: the state
    between the write of an updated user and the repair of the lists. *)
Definition point_back_but (m : gmap string User) (x S : string) : Prop :=
  ∀ sid s op, m !! sid = Some s → op ∈ ManagedOperators s →
    ∃ o, m !! op = Some o ∧ (SupervisorID o = sid ∨ (op = x ∧ sid = S)).

(** The user document that [UpdateUser] writes. *)
Definition updated (user : User) (req : UpdateUserRequest) : User :=
  {| UserID := UserID user;
     Username := Username user;
     Role := if decide (updRole req ≠ "") then updRole req else Role user;
     AllowedCheckpoints :=
       match updAllowedCheckpoints req with
       | Some cps => cps
       | None => AllowedCheckpoints user
       end;
     SupervisorID :=
       if decide (updSupervisorID req ≠ "") then updSupervisorID req
       else SupervisorID user;
     ManagedOperators := ManagedOperators user;
     LastLogin := LastLogin user |}.

(** The user document that [CreateUser] writes. *)
Definition created (now : Time) (req : CreateUserRequest) : User :=
  {| UserID := "user-" +:+ newUsername req;
     Username := newUsername req;
     Role := newRole req;
     AllowedCheckpoints := newAllowedCheckpoints req;
     SupervisorID := newSupervisorID req;
     ManagedOperators := [];
     LastLogin := now |}.

(** ** More of package db: the query on the author of entries *)

Module queries.

(** [Where("logging_user_id", "==", userID)]. *)
Definition GetEntriesByUser (d : FirestoreDB) (userID : string)
  : FirestoreDB * (list Entry + error) :=
  let '(ok, d) := call d in
  if ok then
    (d, inl (filter (λ entry, LoggingUserID entry = userID)
               (Documents (entries d))))
  else (d, inr (failed "failed to iterate entries")).

End queries.

(** ** jwt.go: the Authorization header *)

Module jwt.

Record RegisteredClaims := {
  ExpiresAt : Time;
  IssuedAt : Time;
  NotBefore : Time;
  Issuer : string;
  Subject : string
}.

Record Claims := {
  ClaimUserID : string;
  ClaimUsername : string;
  ClaimRole : UserRole;
  Registered : RegisteredClaims
}.

Inductive HeaderError :=
| ErrHeaderEmpty      (* "authorization header is empty" *)
| ErrHeaderFormat.    (* "invalid authorization header format" *)

(** [authHeader[:7]] and [authHeader[7:]] are [substring]s; the second is
    taken up to the end of the header. *)
Definition ExtractToken (authHeader : string) : string + HeaderError :=
  if decide (authHeader = "") then inr ErrHeaderEmpty
  else if (auth.len authHeader <? 7)
          || negb (bool_decide (substring 0 7 authHeader = "Bearer "))
  then inr ErrHeaderFormat
  else inl (substring 7 (String.length authHeader - 7) authHeader).

End jwt.

(** ** middleware/auth.go *)

Module middleware.

(** A handler as [net/http] sees it, over the store. *)
Definition Handler (B A : Type) : Type :=
  FirestoreDB → Request B → FirestoreDB * Response A.

(** [RequireRole(allowedRoles...)] around [next]. *)
Definition RequireRole {B A} (allowedRoles : list UserRole)
    (next : Handler B A) : Handler B A :=
  λ d r,
    match ContextUser r with
    | None => (d, Error "User not found in context" StatusUnauthorized)
    | Some user =>
        if negb (rangeFinds allowedRoles (Role user)) then
          (d, Error "Insufficient permissions" StatusForbidden)
        else next d r
    end.

(** A request before authentication: the [Authorization] header ([""]
    when absent) and the rest. *)
Record Incoming (B : Type) := {
  Authorization : string;
  Rest : Request B
}.
Arguments Authorization {B} _.
Arguments Rest {B} _.

(** [context.WithValue(r.Context(), UserContextKey, user)]. *)
Definition WithUser {B} (r : Request B) (user : User) : Request B :=
  {| Method := Method r; ContextUser := Some user; Query := Query r;
     Body := Body r |}.

(** [AuthMiddleware(jwtManager, firestoreDB)] around [next].
    [ValidateToken] stands for [jwtManager.ValidateToken], whose work is
    done by the JWT library: [None] is its error return. *)
Definition AuthMiddleware {B A}
    (ValidateToken : string → option jwt.Claims)
    (next : Handler B A)
  : FirestoreDB → Incoming B → FirestoreDB * Response A :=
  λ d r,
    let authHeader := Authorization r in
    if decide (authHeader = "") then
      (d, Error "Authentication required" StatusUnauthorized)
    else
      match jwt.ExtractToken authHeader with
      | inr _ => (d, Error "Invalid authorization header" StatusUnauthorized)
      | inl token =>
          match ValidateToken token with
          | None => (d, Error "Invalid or expired token" StatusUnauthorized)
          | Some claims =>
              match GetUser d (jwt.ClaimUserID claims) with
              | (d, inr _) => (d, Error "User not found" StatusUnauthorized)
              | (d, inl user) => next d (WithUser (Rest r) user)
              end
          end
      end.

End middleware.

(** ** More of supervisor.go *)

Module listing.

(** [SupervisorHandler.GetEntries].  Its body is the map with the keys
    [entries] and [count], the JSON shape of [SyncPullResponse]. *)
Definition GetEntries (d : FirestoreDB) (r : Request unit)
  : FirestoreDB * Response SyncPullResponse :=
  if decide (Method r ≠ "GET") then
    (d, Error "Method not allowed" StatusMethodNotAllowed)
  else
    match ContextUser r with
    | None => (d, Error "User not found in context" StatusUnauthorized)
    | Some user =>
        match GetAllEntries d with
        | (d, inr _) =>
            (d, Error "Failed to retrieve entries"
                  StatusInternalServerError)
        | (d, inl entries) =>
            let filteredEntries := filterEntriesByRole entries user in
            (d, OK {| PullEntries := filteredEntries;
                      Count := Z.of_nat (length filteredEntries) |})
        end
    end.

End listing.

(** ** main.go: the protected routes

    Each route is [authMiddleware(guard(handler))]; the guards are
    [RequireRole("ADMIN")] and [RequireRole("SUPERVISOR", "ADMIN")]. *)

Module routes.

Import middleware.

Definition adminOnly {B A} : Handler B A → Handler B A :=
  RequireRole ["ADMIN"].

Definition supervisorOrAdmin {B A} : Handler B A → Handler B A :=
  RequireRole ["SUPERVISOR"; "ADMIN"].

Definition admin_users_create `{Externals} (now nowStored : Time)
  : Handler CreateUserRequest User :=
  adminOnly (λ d r, CreateUser d now nowStored r).

Definition admin_users_update : Handler UpdateUserRequest User :=
  adminOnly UpdateUser.

Definition admin_users_delete : Handler DeleteUserRequest string :=
  adminOnly DeleteUser.

Definition supervisor_entries : Handler unit SyncPullResponse :=
  supervisorOrAdmin listing.GetEntries.

Definition supervisor_reset_password `{Externals} (now : Time)
  : Handler ResetPasswordRequest string :=
  supervisorOrAdmin (λ d r, ResetPassword d now r).

End routes.

(** ** config.go: the list of allowed origins *)

Module config.

(** The inner loop [for end < len(s) && s[end] != ',' { end++ }].  Each
    turn moves [end] one byte to the right, so the loop makes at most
    [len(s) - end] turns; [turns] is that bound. *)
Fixpoint scanEnd (turns : nat) (s : string) (end_ : nat) : nat :=
  match turns with
  | O => end_
  | S turns =>
      if (end_ <? String.length s)%nat
         && negb (bool_decide (String.get end_ s = Some ","%char))
      then scanEnd turns s (S end_)
      else end_
  end.

(** The outer loop [for i := 0; i < len(s); { ... i = end + 1 }].  Each
    turn moves [i] at least one byte to the right; [turns] bounds the
    turns. *)
Fixpoint parseLoop (turns : nat) (s : string) (i : nat)
    (result : list string) : list string :=
  match turns with
  | O => result
  | S turns =>
      if (i <? String.length s)%nat then
        let end_ := scanEnd (String.length s - i) s i in
        let result :=
          if (i <? end_)%nat then result ++ [substring i (end_ - i) s]
          else result in
        parseLoop turns s (end_ + 1) result
      else result
  end.

Definition parseStringSlice (s : string) : list string :=
  if decide (s = "") then []
  else parseLoop (S (String.length s)) s 0 [].

(** The fields of a string between its commas. *)
Fixpoint fields (s : string) : list string :=
  match s with
  | EmptyString => [""]
  | String c rest =>
      if decide (c = ","%char) then "" :: fields rest
      else
        match fields rest with
        | field :: more => String c field :: more
        | [] => [String c ""]
        end
  end.

Definition comma_free (s : string) : Prop :=
  ","%char ∉ list_ascii_of_string s.

End config.

(** ** The login handler and [CheckPassword] *)

Module login.

(** The three returns of [bcrypt.CompareHashAndPassword]: nil,
    [ErrMismatchedHashAndPassword], any other error. *)
Inductive CompareOutcome :=
| Matches
| Mismatched
| CompareFailed.

Inductive CheckError :=
| ErrInvalidPassword     (* "invalid password" *)
| ErrCheckFailed.        (* "failed to check password: ..." *)

(** [auth.CheckPassword]; [compare] is the bcrypt comparison, which takes
    the hash first. *)
Definition CheckPassword (compare : string → string → CompareOutcome)
    (password hash : string) : option CheckError :=
  match compare hash password with
  | Matches => None
  | Mismatched => Some ErrInvalidPassword
  | CompareFailed => Some ErrCheckFailed
  end.

Record LoginRequest := {
  loginUsername : string;
  loginPassword : string
}.

Record LoginResponse := {
  Token : string;
  RefreshToken : string;
  LoginUser : User
}.

Definition with_LastLogin (u : User) (now : Time) : User :=
  {| UserID := UserID u; Username := Username u; Role := Role u;
     AllowedCheckpoints := AllowedCheckpoints u;
     SupervisorID := SupervisorID u;
     ManagedOperators := ManagedOperators u; LastLogin := now |}.

(** [AuthHandler.Login].  [GenerateToken] and [GenerateRefreshToken]
    stand for the two methods of the handler's token manager at this
    request, whose work is done by the JWT library and the clock: [None]
    is their error return.  [now] is the clock reading for [LastLogin].
    The result of the [UpdateUser] call is only logged. *)
Definition Login (compare : string → string → CompareOutcome)
    (GenerateToken GenerateRefreshToken : User → option string)
    (d : FirestoreDB) (now : Time) (r : Request LoginRequest)
  : FirestoreDB * Response LoginResponse :=
  if decide (Method r ≠ "POST") then
    (d, Error "Method not allowed" StatusMethodNotAllowed)
  else
    match Body r with
    | None => (d, Error "Invalid request body" StatusBadRequest)
    | Some req =>
    if decide (loginUsername req = "" ∨ loginPassword req = "") then
      (d, Error "Username and password are required" StatusBadRequest)
    else
    match GetUserByUsername d (loginUsername req) with
    | (d, inr _) =>
        (d, Error "Invalid username or password" StatusUnauthorized)
    | (d, inl user) =>
    match GetPasswordHash d (UserID user) with
    | (d, inr _) =>
        (d, Error "Invalid username or password" StatusUnauthorized)
    | (d, inl passwordHash) =>
    match CheckPassword compare (loginPassword req) passwordHash with
    | Some _ =>
        (d, Error "Invalid username or password" StatusUnauthorized)
    | None =>
    let user := with_LastLogin user now in
    let d := (db.UpdateUser d user).1 in
    match GenerateToken user with
    | None =>
        (d, Error "Failed to generate authentication token"
              StatusInternalServerError)
    | Some token =>
    match GenerateRefreshToken user with
    | None =>
        (d, Error "Failed to generate refresh token"
              StatusInternalServerError)
    | Some refreshToken =>
        (d, OK {| Token := token; RefreshToken := refreshToken;
                  LoginUser := user |})
    end end end end end end.

End login.

(** ** Auxiliary definitions for the properties of the handlers *)

(** [m'] comes from [m] by rewriting documents in place: the same ids are
    in use and each document keeps its [user_id] and [username]. *)
Definition same_identities (m m' : gmap string User) : Prop :=
  ∀ k,
    match m !! k, m' !! k with
    | Some u, Some u' => UserID u' = UserID u ∧ Username u' = Username u
    | None, None => True
    | _, _ => False
    end.

(** ** Requests and sample data *)

(** An authenticated request as the router hands it to a handler. *)
Definition request {B} (method : string) (user : User)
    (query : string → string) (body : B) : Request B :=
  {| Method := method; ContextUser := Some user; Query := query;
     Body := Some body |}.

Definition no_query : string → string := λ _, "".

Definition since_query (value : string) : string → string :=
  λ key, if decide (key = "since") then value else "".

Definition empty_db : FirestoreDB :=
  {| entries := ∅; users := ∅; passwords := ∅; outcomes := [] |}.

(** A stand-in for the two library functions, used by the closed examples:
    the digest is a tag followed by the password (bcrypt refuses more than
    72 bytes), and one timestamp is understood. *)
Definition sample_externals : Externals :=
  {| bcrypt_GenerateFromPassword := λ password cost,
       if 72 <? auth.len password then None
       else Some ("$2a$14$" +:+ password);
     time_Parse_RFC3339 := λ s,
       if decide (s = "0001-01-01T00:00:50Z") then Some 50 else None |}.

Definition sample_admin : User :=
  {| UserID := "user-admin"; Username := "admin"; Role := RoleAdmin;
     AllowedCheckpoints := []; SupervisorID := "";
     ManagedOperators := []; LastLogin := 0 |}.

(** A supervisor whose own id is in the list of operators they manage, as
    the update handler leaves it when an administrator sets the user's
    [supervisor_id] to the user's own id. *)
Definition self_managed : User :=
  {| UserID := "user-sup"; Username := "sup"; Role := RoleSupervisor;
     AllowedCheckpoints := []; SupervisorID := "user-sup";
     ManagedOperators := ["user-sup"]; LastLogin := 0 |}.

Definition self_managed_db : FirestoreDB :=
  {| entries := ∅;
     users := {[ "user-sup" := self_managed;
                 "user-admin" := sample_admin ]};
     passwords := ∅; outcomes := [] |}.

Definition self_reset : ResetPasswordRequest :=
  {| resetUserID := "user-sup"; resetNewPassword := "passw0rd1" |}.

(** The store before that update, and the update. *)
Definition plain_supervisor : User :=
  {| UserID := "user-sup"; Username := "sup"; Role := RoleSupervisor;
     AllowedCheckpoints := []; SupervisorID := "";
     ManagedOperators := []; LastLogin := 0 |}.

Definition plain_supervisor_db : FirestoreDB :=
  {| entries := ∅;
     users := {[ "user-sup" := plain_supervisor;
                 "user-admin" := sample_admin ]};
     passwords := ∅; outcomes := [] |}.

Definition self_supervise : UpdateUserRequest :=
  {| updUserID := "user-sup"; updRole := "";
     updAllowedCheckpoints := None; updSupervisorID := "user-sup" |}.

(** A gate operator allowed at one checkpoint, and three entries pushed
    under that account: one for the allowed checkpoint, one for another
    checkpoint, one attributed to somebody else. *)
Definition op_east : User :=
  {| UserID := "user-op-east"; Username := "op_east";
     Role := RoleGateOperator; AllowedCheckpoints := ["CP-1"];
     SupervisorID := ""; ManagedOperators := []; LastLogin := 0 |}.

Definition entry_E1 : Entry :=
  {| RecordID := "E1"; CheckpointID := "CP-1";
     EntryType_ := EntryTypeCar; LoggingUserID := "user-op-east";
     ClientTS := 90; UpdatedAt := 100; CreatedAt := 10;
     Status := StatusActive; Payload := [("plate", "KBA 001")] |}.

Definition entry_E2 : Entry :=
  {| RecordID := "E2"; CheckpointID := "CP-2";
     EntryType_ := EntryTypeTruck; LoggingUserID := "user-op-east";
     ClientTS := 91; UpdatedAt := 101; CreatedAt := 101;
     Status := StatusActive; Payload := [] |}.

Definition entry_E3 : Entry :=
  {| RecordID := "E3"; CheckpointID := "CP-1";
     EntryType_ := EntryTypePersonnel; LoggingUserID := "user-op-west";
     ClientTS := 92; UpdatedAt := 102; CreatedAt := 102;
     Status := StatusActive; Payload := [] |}.

Definition sample_batch : SyncPushRequest :=
  {| Entries := [entry_E3; entry_E1; entry_E2] |}.

(** The seeded relationship: a supervisor who manages one operator. *)
Definition sup_john : User :=
  {| UserID := "user-supervisor-john"; Username := "supervisor_john";
     Role := RoleSupervisor;
     AllowedCheckpoints := ["CP-EAST-MAIN"; "CP-NORTH-01"];
     SupervisorID := ""; ManagedOperators := ["user-op-east"];
     LastLogin := 0 |}.

Definition op_east_managed : User :=
  {| UserID := "user-op-east"; Username := "op_east";
     Role := RoleGateOperator; AllowedCheckpoints := ["CP-EAST-MAIN"];
     SupervisorID := "user-supervisor-john"; ManagedOperators := [];
     LastLogin := 0 |}.

Definition seeded_db : FirestoreDB :=
  {| entries := ∅;
     users := {[ "user-admin" := sample_admin;
                 "user-supervisor-john" := sup_john;
                 "user-op-east" := op_east_managed ]};
     passwords := ∅; outcomes := [] |}.

Definition delete_john : DeleteUserRequest :=
  {| delUserID := "user-supervisor-john" |}.

(** A store that holds [entry_E1], created at 10 and updated at 100, and
    the timestamp 50 as the [since] parameter. *)
Definition pull_db : FirestoreDB :=
  {| entries := {[ "E1" := entry_E1 ]}; users := ∅; passwords := ∅;
     outcomes := [] |}.

Definition since_50 : string → string :=
  since_query "0001-01-01T00:00:50Z".

(** [entry_E1] again, marked deleted, with an older [updated_at]; and an
    entry whose body carries no [created_at] and no [updated_at]. *)
Definition entry_E1_older : Entry :=
  {| RecordID := "E1"; CheckpointID := "CP-1";
     EntryType_ := EntryTypeCar; LoggingUserID := "user-op-east";
     ClientTS := 95; UpdatedAt := 50; CreatedAt := 10;
     Status := StatusDeleted; Payload := [("plate", "KBA 001")] |}.

Definition entry_E0 : Entry :=
  {| RecordID := "E0"; CheckpointID := "CP-1";
     EntryType_ := EntryTypeOther; LoggingUserID := "user-op-east";
     ClientTS := 93; UpdatedAt := zeroTime; CreatedAt := zeroTime;
     Status := StatusActive; Payload := [] |}.

Definition push_one (e : Entry) : Request SyncPushRequest :=
  request "POST" op_east no_query {| Entries := [e] |}.

(** A store with one entry of [user-op-east] and one of [user-op-west]. *)
Definition two_authors_db : FirestoreDB :=
  {| entries := {[ "E1" := entry_E1; "E3" := entry_E3 ]}; users := ∅;
     passwords := ∅; outcomes := [] |}.

(** Two supervisors, the first of whom manages [user-op-east], and the
    update that moves the operator to the second. *)
Definition sup_mary : User :=
  {| UserID := "user-supervisor-mary"; Username := "supervisor_mary";
     Role := RoleSupervisor; AllowedCheckpoints := ["CP-WEST-GATE"];
     SupervisorID := ""; ManagedOperators := []; LastLogin := 0 |}.

Definition two_supervisors_db : FirestoreDB :=
  {| entries := ∅;
     users := {[ "user-supervisor-mary" := sup_mary;
                 "user-supervisor-john" := sup_john;
                 "user-op-east" := op_east_managed ]};
     passwords := ∅; outcomes := [] |}.

Definition move_to_mary : UpdateUserRequest :=
  {| updUserID := "user-op-east"; updRole := "";
     updAllowedCheckpoints := None;
     updSupervisorID := "user-supervisor-mary" |}.

(** A new gate operator under [user-supervisor-john]. *)
Definition new_operator : CreateUserRequest :=
  {| newUsername := "op_north"; newPassword := "passw0rd1";
     newRole := RoleGateOperator; newAllowedCheckpoints := ["CP-NORTH-01"];
     newSupervisorID := "user-supervisor-john" |}.



(** A validator that knows one token, that of [user-op-east], and a
    request that carries it. *)
Definition sample_claims : jwt.Claims :=
  {| jwt.ClaimUserID := "user-op-east"; jwt.ClaimUsername := "op_east";
     jwt.ClaimRole := RoleAdmin;
     jwt.Registered :=
       {| jwt.ExpiresAt := 1800; jwt.IssuedAt := 0; jwt.NotBefore := 0;
          jwt.Issuer := "gatekeeper-api"; jwt.Subject := "user-op-east" |} |}.

Definition sample_validator (token : string) : option jwt.Claims :=
  if decide (token = "token-op-east") then Some sample_claims else None.

Definition incoming_pull : middleware.Incoming unit :=
  {| middleware.Authorization := "Bearer token-op-east";
     middleware.Rest :=
       {| Method := "GET"; ContextUser := None; Query := no_query;
          Body := None |} |}.

(** A store with the seeded users and the password document of
    [user-op-east]; a comparison that accepts one password for one hash;
    token methods that always answer. *)
Definition login_db : FirestoreDB :=
  {| entries := ∅;
     users := {[ "user-admin" := sample_admin;
                 "user-supervisor-john" := sup_john;
                 "user-op-east" := op_east_managed ]};
     passwords :=
       {[ "user-op-east" :=
            {| user_id := "user-op-east";
               password_hash := "$2a$14$passw0rd1"; updated_at := 3 |} ]};
     outcomes := [] |}.

Definition sample_compare (hash password : string) : login.CompareOutcome :=
  if decide (hash = "$2a$14$" +:+ password) then login.Matches
  else login.Mismatched.

Definition sample_token (user : User) : option string :=
  Some ("token-for-" +:+ UserID user).

Definition wrong_password : login.LoginRequest :=
  {| login.loginUsername := "op_east"; login.loginPassword := "guess123" |}.

Definition unknown_user : login.LoginRequest :=
  {| login.loginUsername := "nobody"; login.loginPassword := "guess123" |}.

Definition public_request {B} (method : string) (body : B) : Request B :=
  {| Method := method; ContextUser := None; Query := no_query;
     Body := Some body |}.

(** * Properties *)

(** ** The loops *)

Lemma rangeFinds_elem_of xs id : rangeFinds xs id = true ↔ id ∈ xs.
Proof.
  induction xs as [|x xs IH]; simpl.
  - split; [discriminate | intros H; inversion H].
  - destruct (decide (x = id)) as [->|Hne].
    + split; [intros _; left | reflexivity].
    + rewrite IH. split; [by right |].
      intros [?|?]%elem_of_cons; [congruence | done].
Qed.

Lemma rangeFinds_not_elem_of xs id : rangeFinds xs id = false ↔ id ∉ xs.
Proof.
  rewrite <- rangeFinds_elem_of. destruct (rangeFinds xs id); split;
    congruence.
Qed.

Lemma rangeWithout_filter ops id newList :
  rangeWithout ops id newList = newList ++ filter (λ opID, opID ≠ id) ops.
Proof.
  revert newList. induction ops as [|opID ops IH]; intros newList; simpl.
  - by rewrite app_nil_r.
  - rewrite filter_cons. destruct (decide (opID ≠ id)).
    + rewrite IH, <- app_assoc. done.
    + apply IH.
Qed.

Lemma filterManaged_filter entries operators filtered :
  filterManaged entries operators filtered
  = filtered ++ filter (λ e, LoggingUserID e ∈ operators) entries.
Proof.
  revert filtered. induction entries as [|e entries IH]; intros filtered;
    simpl.
  - by rewrite app_nil_r.
  - rewrite filter_cons.
    destruct (rangeFinds operators (LoggingUserID e)) eqn:Hfind.
    + apply rangeFinds_elem_of in Hfind.
      rewrite decide_True by done. rewrite IH, <- app_assoc. done.
    + apply rangeFinds_not_elem_of in Hfind.
      rewrite decide_False by done. apply IH.
Qed.

Lemma filterOwn_filter entries userID filtered :
  filterOwn entries userID filtered
  = filtered ++ filter (λ e, LoggingUserID e = userID) entries.
Proof.
  revert filtered. induction entries as [|e entries IH]; intros filtered;
    simpl.
  - by rewrite app_nil_r.
  - rewrite filter_cons. destruct (decide (LoggingUserID e = userID)).
    + rewrite IH, <- app_assoc. done.
    + apply IH.
Qed.

(** ** Visibility *)

Lemma visible_entries_elem_of all_entries requester e :
  e ∈ visible_entries all_entries requester
  ↔ e ∈ all_entries ∧ visible requester e.
Proof.
  unfold visible_entries, visible.
  assert (RoleAdmin ≠ RoleSupervisor) by discriminate.
  assert (RoleAdmin ≠ RoleGateOperator) by discriminate.
  assert (RoleSupervisor ≠ RoleGateOperator) by discriminate.
  destruct (decide (Role requester = RoleAdmin)) as [Ha|Ha].
  { split; [intros ?; split; [done | by left] | by intros [? _]]. }
  destruct (decide (Role requester = RoleSupervisor)) as [Hs|Hs].
  { destruct (decide (ManagedOperators requester = [])) as [Hnil|Hnil].
    - rewrite Hnil. split; [by intros ?%elem_of_nil |].
      intros [_ [?|[[_ Hin]|[? _]]]]; [done | | congruence].
      by apply elem_of_nil in Hin.
    - rewrite list_elem_of_filter. split.
      + intros [? ?]. split; [done |]. right; left. done.
      + intros [? [?|[[_ ?]|[? _]]]]; [done | done | congruence]. }
  destruct (decide (Role requester = RoleGateOperator)) as [Hg|Hg].
  { rewrite list_elem_of_filter. split.
    - intros [? ?]. split; [done |]. right; right. done.
    - intros [? [?|[[? _]|[_ ?]]]]; done. }
  split; [by intros ?%elem_of_nil |].
  intros [_ [?|[[? _]|[? _]]]]; done.
Qed.

Lemma filterEntriesByRole_visible_entries user entries :
  filterEntriesByRole entries user = visible_entries entries user.
Proof.
  unfold filterEntriesByRole, visible_entries.
  destruct (decide (Role user = RoleAdmin)); [done |].
  destruct (decide (Role user = RoleSupervisor)).
  - destruct (decide (length (ManagedOperators user) = 0%nat)) as [Hl|Hl];
      destruct (decide (ManagedOperators user = [])) as [Hn|Hn].
    + done.
    + by apply nil_length_inv in Hl.
    + by rewrite Hn in Hl.
    + by rewrite filterManaged_filter.
  - destruct (decide (Role user = RoleGateOperator)); [| done].
    by rewrite filterOwn_filter.
Qed.

Lemma filterEntriesByRole_visible entries user e :
  e ∈ filterEntriesByRole entries user ↔ e ∈ entries ∧ visible user e.
Proof.
  rewrite filterEntriesByRole_visible_entries.
  apply visible_entries_elem_of.
Qed.

(** C1. For every user and every list of entries, [filterEntriesByRole]
    returns what the role table prescribes: everything for an Admin; for a
    Supervisor the entries whose author is one of the managed operators, and
    nothing when there is none; for a GateOperator the entries that the
    requester wrote; nothing for any other role.  The result keeps the order
    of the input, and an entry is in it exactly when it is in the input and
    the table makes it visible. *)
Theorem filterEntriesByRole_role_table (user : User) (entries : list Entry) :
  filterEntriesByRole entries user = visible_entries entries user
  ∧ ∀ e, e ∈ filterEntriesByRole entries user
         ↔ e ∈ entries ∧ visible user e.
Proof.
  split.
  - apply filterEntriesByRole_visible_entries.
  - intros e. apply filterEntriesByRole_visible.
Qed.

(** ** Password policy *)

Lemma scanPassword_existsb password hasLetter hasNumber :
  auth.scanPassword password hasLetter hasNumber
  = (hasLetter || existsb auth.isLetter (list_ascii_of_string password),
     hasNumber || existsb auth.isNumber (list_ascii_of_string password)).
Proof.
  revert hasLetter hasNumber.
  induction password as [|char rest IH]; intros hasLetter hasNumber; simpl.
  - by rewrite !orb_false_r.
  - rewrite IH. f_equal.
    + destruct (auth.isLetter char), hasLetter; reflexivity.
    + destruct (auth.isNumber char), hasNumber; reflexivity.
Qed.

Lemma existsb_elem_of {A} (f : A → bool) (l : list A) :
  existsb f l = true ↔ ∃ x, x ∈ l ∧ f x = true.
Proof.
  rewrite existsb_exists. split; intros (x & Hx & Hf); exists x;
    (split; [by apply list_elem_of_In | done]).
Qed.

Lemma has_letter_existsb password :
  auth.has_letter password
  ↔ existsb auth.isLetter (list_ascii_of_string password) = true.
Proof. unfold auth.has_letter. by rewrite existsb_elem_of. Qed.

Lemma has_digit_existsb password :
  auth.has_digit password
  ↔ existsb auth.isNumber (list_ascii_of_string password) = true.
Proof. unfold auth.has_digit. by rewrite existsb_elem_of. Qed.

Lemma ValidatePasswordStrength_None password :
  auth.ValidatePasswordStrength password = None
  ↔ auth.meets_policy password.
Proof.
  unfold auth.ValidatePasswordStrength, auth.meets_policy.
  rewrite scanPassword_existsb, has_letter_existsb, has_digit_existsb.
  simpl.
  destruct (Z.ltb_spec (auth.len password) auth.MinPasswordLength).
  - split; [discriminate | lia].
  - destruct (existsb auth.isLetter _), (existsb auth.isNumber _); simpl;
      split; try discriminate; try done; intros (_ & ? & ?); discriminate.
Qed.

Lemma ValidatePasswordStrength_fails password :
  is_Some (auth.ValidatePasswordStrength password)
  ↔ auth.len password < auth.MinPasswordLength
    ∨ ¬ auth.has_letter password ∨ ¬ auth.has_digit password.
Proof.
  rewrite <- not_eq_None_Some, ValidatePasswordStrength_None.
  unfold auth.meets_policy.
  rewrite has_letter_existsb, has_digit_existsb.
  destruct (existsb auth.isLetter _), (existsb auth.isNumber _);
    split; intros Hc.
  all: try (right; left; discriminate).
  all: try (right; right; discriminate).
  all: try (intros (_ & ? & ?); discriminate).
  - left. apply Z.lt_nge. intros ?. by apply Hc.
  - intros (? & _ & _). destruct Hc as [?|[?|?]]; [lia | done | done].
Qed.

Lemma HashPassword_too_short `{Externals} password :
  auth.HashPassword password = inr auth.ErrTooShort
  ↔ auth.len password < auth.MinPasswordLength.
Proof.
  unfold auth.HashPassword.
  destruct (Z.ltb_spec (auth.len password) auth.MinPasswordLength).
  - done.
  - destruct (bcrypt_GenerateFromPassword _ _); split;
      try discriminate; lia.
Qed.

Lemma HashPassword_digest `{Externals} password digest :
  auth.HashPassword password = inl digest
  ↔ auth.MinPasswordLength ≤ auth.len password
    ∧ bcrypt_GenerateFromPassword password auth.BcryptCost = Some digest.
Proof.
  unfold auth.HashPassword.
  destruct (Z.ltb_spec (auth.len password) auth.MinPasswordLength).
  - split; [discriminate | lia].
  - destruct (bcrypt_GenerateFromPassword _ _); split.
    + intros [= ->]. done.
    + intros [_ [= ->]]. done.
    + discriminate.
    + intros [_ [=]].
Qed.

(** C8, as the code has it.  [HashPassword] tests the length alone: it
    fails with the too-short error exactly when the password has fewer than
    [MinPasswordLength] bytes, and otherwise returns whatever bcrypt
    returns.  The requirement of a letter and a digit belongs to
    [ValidatePasswordStrength], which fails exactly when the password is
    too short, or has no letter, or has no digit, and so succeeds exactly
    on the passwords that meet all three requirements. *)
Theorem HashPassword_length_only `{Externals} (password : string) :
  (auth.HashPassword password = inr auth.ErrTooShort
   ↔ auth.len password < auth.MinPasswordLength)
  ∧ (∀ digest, auth.HashPassword password = inl digest
       ↔ auth.MinPasswordLength ≤ auth.len password
         ∧ bcrypt_GenerateFromPassword password auth.BcryptCost
           = Some digest)
  ∧ (is_Some (auth.ValidatePasswordStrength password)
     ↔ auth.len password < auth.MinPasswordLength
       ∨ ¬ auth.has_letter password ∨ ¬ auth.has_digit password)
  ∧ (auth.ValidatePasswordStrength password = None
     ↔ auth.meets_policy password).
Proof.
  split; [| split; [| split]].
  - apply HashPassword_too_short.
  - intros digest. apply HashPassword_digest.
  - apply ValidatePasswordStrength_fails.
  - apply ValidatePasswordStrength_None.
Qed.

(** C8, as stated, fails: ["password"] has no digit, so it does not meet
    the policy, and [HashPassword] returns the digest that bcrypt makes of
    it, whatever bcrypt is. *)
Lemma HashPassword_accepts_password_without_digit :
  ¬ auth.has_digit "password"
  ∧ ¬ auth.meets_policy "password"
  ∧ @auth.HashPassword sample_externals "password"
    = inl "$2a$14$password"
  ∧ ∀ E : Externals,
      @auth.HashPassword E "password"
      = match @bcrypt_GenerateFromPassword E "password" auth.BcryptCost with
        | Some digest => inl digest
        | None => inr auth.ErrHashFailed
        end.
Proof.
  assert (Hd : ¬ auth.has_digit "password").
  { rewrite has_digit_existsb. vm_compute. discriminate. }
  split; [exact Hd |]. split; [by intros (_ & _ & ?) |].
  split; [reflexivity |]. intros E. reflexivity.
Qed.

(** ** The store when its calls succeed *)

Lemma call_healthy d : outcomes d = [] → call d = (true, d).
Proof. intros Hd. unfold call. by rewrite Hd. Qed.

Lemma GetUser_healthy d userID :
  outcomes d = [] →
  GetUser d userID
  = (d, match users d !! userID with
        | Some user => inl user
        | None => inr (failed "failed to get user")
        end).
Proof.
  intros Hd. unfold GetUser. rewrite call_healthy by done.
  by destruct (users d !! userID).
Qed.

Lemma StorePasswordHash_healthy d now userID passwordHash :
  outcomes d = [] →
  StorePasswordHash d now userID passwordHash
  = (with_passwords d
       (<[userID := {| user_id := userID; password_hash := passwordHash;
                       updated_at := now |}]> (passwords d)), nil).
Proof. intros Hd. unfold StorePasswordHash. by rewrite call_healthy. Qed.

(** ** Password reset *)

(** C9. A password reset whose new password fails the strength policy is
    answered with status 400 and leaves the client and the store exactly as
    they were: no document is read or written, and no call to the store is
    made at all. *)
Theorem ResetPassword_weak_password_rejected_first `{Externals}
    (d : FirestoreDB) (now : Time) (requester : User)
    (query : string → string) (req : ResetPasswordRequest) :
  ¬ auth.meets_policy (resetNewPassword req) →
  ∃ message,
    ResetPassword d now (request "POST" requester query req)
    = (d, Error message StatusBadRequest).
Proof.
  intros Hweak. rewrite <- ValidatePasswordStrength_None in Hweak.
  unfold ResetPassword, request. simpl.
  destruct (decide (resetUserID req = "" ∨ resetNewPassword req = ""));
    [by eexists |].
  destruct (auth.ValidatePasswordStrength (resetNewPassword req));
    [by eexists | done].
Qed.

Lemma ResetPassword_weak_password_rejected_first_witness :
  ¬ auth.meets_policy "abc"
  ∧ ∃ message,
      @ResetPassword sample_externals self_managed_db 7
        (request "POST" self_managed no_query
           {| resetUserID := "user-sup"; resetNewPassword := "abc" |})
      = (self_managed_db, Error message StatusBadRequest).
Proof.
  assert (Hweak : ¬ auth.meets_policy "abc").
  { intros [Hlen _]. vm_compute in Hlen. by apply Hlen. }
  split; [exact Hweak |].
  apply (@ResetPassword_weak_password_rejected_first sample_externals
           self_managed_db 7 self_managed no_query
           {| resetUserID := "user-sup"; resetNewPassword := "abc" |}).
  exact Hweak.
Defined.

(** C10, as the code has it.  For a requester with the Supervisor role a
    reset succeeds only when the target id is in the requester's
    [managed_operators]; when the request is otherwise in order (ids and
    password present, password within policy, target found) and the target
    id is not in that list, the answer is 403 and nothing is written; when
    the target id is in the list the reset goes through, whoever the target
    is.  For a requester with the Admin role the reset of any target that
    exists goes through.  "Goes through" is under the store answering its
    calls and bcrypt returning a digest. *)
Theorem ResetPassword_authorization `{Externals}
    (d : FirestoreDB) (now : Time) (requester : User)
    (query : string → string) (req : ResetPasswordRequest) :
  let answer := ResetPassword d now (request "POST" requester query req) in
  let stored digest :=
    with_passwords d
      (<[resetUserID req :=
           {| user_id := resetUserID req; password_hash := digest;
              updated_at := now |}]> (passwords d)) in
  (Role requester = RoleSupervisor → status answer.2 = 200 →
   resetUserID req ∈ ManagedOperators requester)
  ∧ (Role requester = RoleSupervisor →
     resetUserID req ∉ ManagedOperators requester →
     resetUserID req ≠ "" → auth.meets_policy (resetNewPassword req) →
     ∀ d' target, GetUser d (resetUserID req) = (d', inl target) →
     answer
     = (d', Error "You can only reset passwords for operators you manage"
              StatusForbidden)
     ∧ passwords d' = passwords d)
  ∧ (Role requester = RoleAdmin
     ∨ (Role requester = RoleSupervisor
        ∧ resetUserID req ∈ ManagedOperators requester) →
     outcomes d = [] →
     resetUserID req ≠ "" → auth.meets_policy (resetNewPassword req) →
     is_Some (users d !! resetUserID req) →
     ∀ digest,
       bcrypt_GenerateFromPassword (resetNewPassword req) auth.BcryptCost
       = Some digest →
       answer = (stored digest, OK "Password reset successfully")).
Proof.
  intros answer stored. subst answer stored.
  unfold ResetPassword, request. simpl.
  split; [| split].
  - intros Hrole.
    destruct (decide (resetUserID req = "" ∨ resetNewPassword req = ""));
      [discriminate |].
    destruct (auth.ValidatePasswordStrength _); [discriminate |].
    destruct (GetUser d (resetUserID req)) as [d' [target|err]];
      [| discriminate].
    rewrite bool_decide_eq_true_2 by done. simpl.
    destruct (rangeFinds _ _) eqn:Hfind; [| discriminate].
    intros _. by apply rangeFinds_elem_of.
  - intros Hrole Hnotin Hid Hpolicy d' target Hget.
    apply ValidatePasswordStrength_None in Hpolicy.
    rewrite decide_False, Hpolicy, Hget by (intros [?|Hp]; [done |];
      rewrite Hp in Hpolicy; discriminate).
    rewrite bool_decide_eq_true_2 by done.
    apply rangeFinds_not_elem_of in Hnotin. rewrite Hnotin. simpl.
    split; [done |].
    unfold GetUser, call in Hget.
    destruct (outcomes d) as [|[] rest]; simpl in Hget;
      repeat case_match; by simplify_eq.
  - intros Hmay Hd Hid Hpolicy [target Htarget] digest Hdigest.
    apply ValidatePasswordStrength_None in Hpolicy.
    rewrite decide_False, Hpolicy by (intros [?|Hp]; [done |];
      rewrite Hp in Hpolicy; discriminate).
    rewrite GetUser_healthy, Htarget by done.
    assert (bool_decide (Role requester = RoleSupervisor)
            && negb (rangeFinds (ManagedOperators requester)
                       (resetUserID req)) = false) as ->.
    { destruct Hmay as [Hadmin|[Hsup Hin]].
      - rewrite bool_decide_eq_false_2; [done |].
        rewrite Hadmin. discriminate.
      - apply rangeFinds_elem_of in Hin. rewrite Hin.
        by rewrite andb_false_r. }
    pose proof (HashPassword_digest (resetNewPassword req) digest)
      as Hhash.
    rewrite (proj2 Hhash), StorePasswordHash_healthy; [done | done |].
    split; [| done].
    apply ValidatePasswordStrength_None in Hpolicy. apply Hpolicy.
Qed.

Lemma ResetPassword_authorization_witness :
  @ResetPassword sample_externals self_managed_db 7
    (request "POST" sample_admin no_query self_reset)
  = (with_passwords self_managed_db
       (<["user-sup" :=
            {| user_id := "user-sup";
               password_hash := "$2a$14$passw0rd1";
               updated_at := 7 |}]> (passwords self_managed_db)),
     OK "Password reset successfully").
Proof.
  destruct (@ResetPassword_authorization sample_externals self_managed_db 7
              sample_admin no_query self_reset) as (_ & _ & Hadmin).
  apply Hadmin.
  - left. reflexivity.
  - reflexivity.
  - discriminate.
  - apply ValidatePasswordStrength_None. reflexivity.
  - exists self_managed. reflexivity.
  - reflexivity.
Defined.

(** C10, as stated, fails: a Supervisor whose [managed_operators] holds the
    Supervisor's own id resets their own password.  The update handler
    builds such a list when an administrator sets the user's
    [supervisor_id] to the user's own id. *)
Lemma supervisor_resets_own_password :
  Role self_managed = RoleSupervisor
  ∧ resetUserID self_reset = UserID self_managed
  ∧ (UpdateUser plain_supervisor_db
       (request "PUT" sample_admin no_query self_supervise)).1
    = self_managed_db
  ∧ users self_managed_db !! "user-sup" = Some self_managed
  ∧ @ResetPassword sample_externals self_managed_db 7
      (request "POST" self_managed no_query self_reset)
    = (with_passwords self_managed_db
         (<["user-sup" :=
              {| user_id := "user-sup";
                 password_hash := "$2a$14$passw0rd1";
                 updated_at := 7 |}]> ∅),
       OK "Password reset successfully").
Proof. repeat split; vm_compute; reflexivity. Qed.

(** ** The push loop *)

Lemma advance_entries d : entries (advance d) = entries d.
Proof. unfold advance, call. by destruct (outcomes d). Qed.

Lemma advance_users d : users (advance d) = users d.
Proof. unfold advance, call. by destruct (outcomes d). Qed.

Lemma advance_passwords d : passwords (advance d) = passwords d.
Proof. unfold advance, call. by destruct (outcomes d). Qed.

Lemma advance_outcomes d : outcomes (advance d) = drop 1 (outcomes d).
Proof. unfold advance, call. by destruct (outcomes d) eqn:Hd. Qed.

Lemma CreateEntry_cases d entry :
  CreateEntry d entry
  = (with_entries (advance d) (<[RecordID entry := entry]> (entries d)),
     nil)
  ∨ CreateEntry d entry = (advance d, failed "failed to create entry").
Proof.
  unfold CreateEntry, advance, call.
  destruct (outcomes d) as [|[] rest]; simpl; auto.
Qed.

Lemma CreateEntry_healthy d entry :
  outcomes d = [] →
  CreateEntry d entry
  = (with_entries d (<[RecordID entry := entry]> (entries d)), nil).
Proof. intros Hd. unfold CreateEntry. by rewrite call_healthy. Qed.

Lemma pushLoop_rejected user e rest d accepted rejected rejectedIDs :
  ¬ write_authorized user e →
  pushLoop user (e :: rest) d accepted rejected rejectedIDs
  = pushLoop user rest d accepted (rejected + 1)
      (rejectedIDs ++ [RecordID e]).
Proof.
  intros Hno. simpl.
  destruct (decide (LoggingUserID e ≠ UserID user)) as [|Hown]; [done |].
  apply dec_stable in Hown.
  destruct (bool_decide (Role user = RoleGateOperator)) eqn:Hrole;
    destruct (rangeFinds (AllowedCheckpoints user) (CheckpointID e))
      eqn:Hfind; simpl; try done; exfalso; apply Hno; split; try done.
  - intros _. by apply rangeFinds_elem_of.
  - apply bool_decide_eq_false in Hrole. done.
  - apply bool_decide_eq_false in Hrole. done.
Qed.

Lemma pushLoop_authorized user e rest d accepted rejected rejectedIDs :
  write_authorized user e →
  pushLoop user (e :: rest) d accepted rejected rejectedIDs
  = match CreateEntry d e with
    | (d, failed _) =>
        pushLoop user rest d accepted (rejected + 1)
          (rejectedIDs ++ [RecordID e])
    | (d, nil) =>
        pushLoop user rest d (accepted + 1) rejected rejectedIDs
    end.
Proof.
  intros [Hown Hcp]. simpl.
  rewrite decide_False by (intros Hne; by apply Hne).
  destruct (bool_decide (Role user = RoleGateOperator)) eqn:Hrole;
    [| done].
  apply bool_decide_eq_true in Hrole.
  apply Hcp, rangeFinds_elem_of in Hrole. by rewrite Hrole.
Qed.

(** Case analysis on the head of the batch, for the inductions below. *)
Ltac push_head user e d :=
  destruct (decide (write_authorized user e));
  [ rewrite pushLoop_authorized by done;
    destruct (CreateEntry_cases d e) as [-> | ->]
  | rewrite pushLoop_rejected by done ].

Lemma pushLoop_counts user es d accepted rejected rejectedIDs :
  ∃ d' accepted' more,
    pushLoop user es d accepted rejected rejectedIDs
    = (d', (accepted', rejected + Z.of_nat (length more),
            rejectedIDs ++ more))
    ∧ accepted' + Z.of_nat (length more)
      = accepted + Z.of_nat (length es)
    ∧ accepted ≤ accepted'.
Proof.
  revert d accepted rejected rejectedIDs.
  induction es as [|e es IH]; intros d accepted rejected rejectedIDs.
  - exists d, accepted, []. simpl. rewrite app_nil_r, Z.add_0_r.
    split; [done | lia].
  - push_head user e d.
    + destruct (IH (with_entries (advance d)
                      (<[RecordID e := e]> (entries d)))
                  (accepted + 1) rejected rejectedIDs)
        as (d' & a' & more & -> & Hsum & Hle).
      exists d', a', more. split; [done |]. simpl length. lia.
    + destruct (IH (advance d) accepted (rejected + 1)
                  (rejectedIDs ++ [RecordID e]))
        as (d' & a' & more & -> & Hsum & Hle).
      exists d', a', (RecordID e :: more).
      rewrite <- app_assoc. simpl length. split; [f_equal; f_equal; f_equal; lia |].
      lia.
    + destruct (IH d accepted (rejected + 1)
                  (rejectedIDs ++ [RecordID e]))
        as (d' & a' & more & -> & Hsum & Hle).
      exists d', a', (RecordID e :: more).
      rewrite <- app_assoc. simpl length. split; [f_equal; f_equal; f_equal; lia |].
      lia.
Qed.

Lemma pushLoop_rejected_ids user es d accepted rejected rejectedIDs e :
  e ∈ es → ¬ write_authorized user e →
  RecordID e
  ∈ (pushLoop user es d accepted rejected rejectedIDs).2.2.
Proof.
  assert (Hkeep : ∀ es d accepted rejected rejectedIDs id,
            id ∈ rejectedIDs →
            id ∈ (pushLoop user es d accepted rejected rejectedIDs).2.2).
  { clear. intros es d accepted rejected rejectedIDs id Hin.
    destruct (pushLoop_counts user es d accepted rejected rejectedIDs)
      as (d' & a' & more & -> & _). simpl.
    apply elem_of_app. by left. }
  revert d accepted rejected rejectedIDs.
  induction es as [|e0 es IH]; intros d accepted rejected rejectedIDs Hin Hno.
  - by apply elem_of_nil in Hin.
  - apply elem_of_cons in Hin as [<- | Hin].
    + rewrite pushLoop_rejected by done. apply Hkeep.
      apply elem_of_app. right. by apply list_elem_of_singleton.
    + push_head user e0 d; by apply IH.
Qed.

Lemma pushLoop_store user es d accepted rejected rejectedIDs k x :
  entries (pushLoop user es d accepted rejected rejectedIDs).1 !! k
  = Some x →
  entries d !! k = Some x
  ∨ (x ∈ es ∧ write_authorized user x ∧ RecordID x = k).
Proof.
  revert d accepted rejected rejectedIDs.
  induction es as [|e es IH]; intros d accepted rejected rejectedIDs.
  - simpl. auto.
  - push_head user e d; intros Hx; apply IH in Hx.
    + destruct Hx as [Hx | (? & ? & ?)].
      * simpl in Hx. destruct (decide (RecordID e = k)) as [<-|Hne].
        -- rewrite lookup_insert_eq in Hx. injection Hx as <-.
           right. split; [by left | done].
        -- rewrite lookup_insert_ne in Hx by done. by left.
      * right. split; [by right | done].
    + rewrite advance_entries in Hx.
      destruct Hx as [Hx | (? & ? & ?)]; [by left |].
      right. split; [by right | done].
    + destruct Hx as [Hx | (? & ? & ?)]; [by left |].
      right. split; [by right | done].
Qed.

Lemma pushLoop_other_collections user es d accepted rejected rejectedIDs :
  let d' := (pushLoop user es d accepted rejected rejectedIDs).1 in
  users d' = users d ∧ passwords d' = passwords d.
Proof.
  revert d accepted rejected rejectedIDs.
  induction es as [|e es IH]; intros d accepted rejected rejectedIDs.
  - done.
  - cbv zeta in *. push_head user e d.
    + destruct (IH (with_entries (advance d)
                      (<[RecordID e := e]> (entries d)))
                  (accepted + 1) rejected rejectedIDs) as [-> ->].
      simpl. by rewrite advance_users, advance_passwords.
    + destruct (IH (advance d) accepted (rejected + 1)
                  (rejectedIDs ++ [RecordID e])) as [-> ->].
      by rewrite advance_users, advance_passwords.
    + apply IH.
Qed.

Lemma pushLoop_calls user es d accepted rejected rejectedIDs :
  outcomes (pushLoop user es d accepted rejected rejectedIDs).1
  = drop (length (filter (write_authorized user) es)) (outcomes d).
Proof.
  revert d accepted rejected rejectedIDs.
  induction es as [|e es IH]; intros d accepted rejected rejectedIDs.
  - done.
  - rewrite filter_cons. push_head user e d; rewrite IH.
    + simpl. by rewrite advance_outcomes, drop_drop.
    + simpl length. by rewrite advance_outcomes, drop_drop.
    + done.
Qed.

Lemma pushLoop_skips_rejected user es d accepted r1 ids1 r2 ids2 :
  let whole := pushLoop user es d accepted r1 ids1 in
  let kept :=
    pushLoop user (filter (write_authorized user) es) d accepted r2 ids2 in
  whole.1 = kept.1 ∧ whole.2.1.1 = kept.2.1.1.
Proof.
  revert d accepted r1 ids1 r2 ids2.
  induction es as [|e es IH]; intros d accepted r1 ids1 r2 ids2.
  - done.
  - cbv zeta. rewrite filter_cons.
    destruct (decide (write_authorized user e)).
    + rewrite !pushLoop_authorized by done.
      destruct (CreateEntry_cases d e) as [-> | ->]; apply IH.
    + rewrite pushLoop_rejected by done. apply IH.
Qed.

Lemma pushLoop_healthy user es d accepted rejected rejectedIDs :
  outcomes d = [] →
  pushLoop user es d accepted rejected rejectedIDs
  = (with_entries d
       (persist_all (entries d) (filter (write_authorized user) es)),
     (accepted
      + Z.of_nat (length (filter (write_authorized user) es)),
      rejected
      + Z.of_nat (length (filter (λ e, ¬ write_authorized user e) es)),
      rejectedIDs
      ++ (RecordID <$> filter (λ e, ¬ write_authorized user e) es))).
Proof.
  revert d accepted rejected rejectedIDs.
  induction es as [|e es IH]; intros d accepted rejected rejectedIDs Hd.
  - simpl. rewrite !Z.add_0_r, app_nil_r. by destruct d.
  - rewrite !filter_cons. destruct (decide (write_authorized user e)).
    + rewrite pushLoop_authorized, CreateEntry_healthy by done.
      rewrite decide_False by (intros Hc; by apply Hc).
      rewrite IH by done. simpl.
      unfold with_entries; simpl. do 2 f_equal. f_equal. lia.
    + rewrite pushLoop_rejected by done. rewrite decide_True by done.
      rewrite IH by done. simpl.
      rewrite <- app_assoc. simpl. do 2 f_equal. f_equal. lia.
Qed.

Lemma persist_all_lookup m es k :
  persist_all m es !! k
  = match latest k es with
    | Some x => Some x
    | None => m !! k
    end.
Proof.
  revert m. induction es as [|e es IH]; intros m; [done |].
  simpl. change (foldl _ (<[RecordID e := e]> m) es)
    with (persist_all (<[RecordID e := e]> m) es).
  rewrite IH. destruct (latest k es); [done |].
  destruct (decide (RecordID e = k)) as [<-|Hne].
  - by rewrite lookup_insert_eq.
  - by rewrite lookup_insert_ne.
Qed.

Lemma persist_all_twice m es :
  persist_all (persist_all m es) es = persist_all m es.
Proof.
  apply map_eq. intros k. rewrite !persist_all_lookup.
  by destruct (latest k es).
Qed.

Lemma Push_request d user query es :
  Push d (request "POST" user query {| Entries := es |})
  = let '(d', (accepted, rejected, rejectedIDs)) :=
      pushLoop user es d 0 0 [] in
    (d', OK {| Success := bool_decide (rejected = 0);
               Accepted := accepted; Rejected := rejected;
               RejectedIDs := rejectedIDs;
               Message := "Sync completed" |}).
Proof. reflexivity. Qed.

(** ** Sync push *)

(** C2. In a push by any requester, an entry whose [logging_user_id] is
    not the requester's [user_id] has its [record_id] among the rejected
    ids; so has, when the requester is a GateOperator, an entry whose
    checkpoint is not among the requester's [allowed_checkpoints].  No
    rejected entry is persisted: every document of the entries collection
    after the push was there before or is an entry of the batch that passes
    both checks.  Every entry that passes both checks is handed to the
    store: the push makes one store call for each of them and none for the
    others, and when the store accepts its calls the collection after the
    push is the collection before it with those entries upserted in
    order. *)
Theorem Push_write_authorization (d : FirestoreDB) (user : User)
    (query : string → string) (es : list Entry) :
  ∃ d' resp,
    Push d (request "POST" user query {| Entries := es |}) = (d', OK resp)
    ∧ (∀ e, e ∈ es → LoggingUserID e ≠ UserID user →
         RecordID e ∈ RejectedIDs resp)
    ∧ (∀ e, e ∈ es → Role user = RoleGateOperator →
         CheckpointID e ∉ AllowedCheckpoints user →
         RecordID e ∈ RejectedIDs resp)
    ∧ (∀ k x, entries d' !! k = Some x →
         entries d !! k = Some x
         ∨ (x ∈ es ∧ write_authorized user x ∧ RecordID x = k))
    ∧ outcomes d'
      = drop (length (filter (write_authorized user) es)) (outcomes d)
    ∧ (outcomes d = [] →
       entries d'
       = persist_all (entries d) (filter (write_authorized user) es)).
Proof.
  rewrite Push_request.
  pose proof (pushLoop_rejected_ids user es d 0 0 []) as Hrej.
  pose proof (pushLoop_store user es d 0 0 []) as Hstore.
  pose proof (pushLoop_calls user es d 0 0 []) as Hcalls.
  pose proof (pushLoop_healthy user es d 0 0 []) as Hhealthy.
  destruct (pushLoop user es d 0 0 []) as [d' [[accepted rejected] ids]].
  eexists _, _. split; [reflexivity |]. simpl in *.
  split; [| split; [| split; [| split]]].
  - intros e Hin Hne. apply Hrej; [done |]. by intros [? _].
  - intros e Hin Hrole Hcp. apply Hrej; [done |].
    intros [_ Hok]. by apply Hcp, Hok.
  - exact Hstore.
  - exact Hcalls.
  - intros Hd. specialize (Hhealthy Hd). by injection Hhealthy as -> _ _ _.
Qed.

Lemma Push_write_authorization_witness :
  ∃ d' resp,
    Push empty_db (request "POST" op_east no_query sample_batch)
    = (d', OK resp)
    ∧ RecordID entry_E3 ∈ RejectedIDs resp
    ∧ RecordID entry_E2 ∈ RejectedIDs resp
    ∧ entries d' = {[ "E1" := entry_E1 ]}.
Proof.
  destruct (Push_write_authorization empty_db op_east no_query
              (Entries sample_batch))
    as (d' & resp & Hpush & Hown & Hcp & _ & _ & Hall).
  exists d', resp. split; [exact Hpush |].
  split; [| split].
  - apply Hown; [| discriminate]. left.
  - apply Hcp; [| reflexivity |].
    + right. right. left.
    + intros Hin. apply rangeFinds_elem_of in Hin. discriminate.
  - rewrite Hall by reflexivity. vm_compute. reflexivity.
Defined.

(** C5. Every entry of a push is counted once, as accepted or as
    rejected; the rejected count is the length of the rejected ids; the
    success flag is set exactly when nothing was rejected.  A rejection
    does not stop the loop: the store and the accepted count are those of a
    push of the batch without the entries that fail the checks, and each
    entry that passes them gets its store call whether or not earlier calls
    failed. *)
Theorem Push_accounting (d : FirestoreDB) (user : User)
    (query : string → string) (es : list Entry) :
  ∃ d' resp,
    Push d (request "POST" user query {| Entries := es |}) = (d', OK resp)
    ∧ Accepted resp + Rejected resp = Z.of_nat (length es)
    ∧ 0 ≤ Accepted resp
    ∧ Rejected resp = Z.of_nat (length (RejectedIDs resp))
    ∧ (Success resp = true ↔ Rejected resp = 0)
    ∧ (∃ resp',
         Push d (request "POST" user query
                   {| Entries := filter (write_authorized user) es |})
         = (d', OK resp')
         ∧ Accepted resp' = Accepted resp)
    ∧ outcomes d'
      = drop (length (filter (write_authorized user) es)) (outcomes d).
Proof.
  rewrite !Push_request.
  pose proof (pushLoop_skips_rejected user es d 0 0 [] 0 []) as Hskip.
  pose proof (pushLoop_calls user es d 0 0 []) as Hcalls.
  destruct (pushLoop_counts user es d 0 0 [])
    as (d' & accepted & more & Heq & Hsum & Hle).
  rewrite Heq in *. simpl in *.
  destruct (pushLoop user (filter (write_authorized user) es) d 0 0 [])
    as [d2 [[accepted2 rejected2] ids2]].
  simpl in Hskip. destruct Hskip as [<- <-].
  eexists _, _. split; [reflexivity |]. simpl.
  split; [lia |]. split; [lia |]. split; [done |].
  split; [apply bool_decide_eq_true |].
  split; [| done]. eexists. split; reflexivity.
Qed.

(** C7. When the store accepts its calls, pushing a batch a second time
    changes nothing: the store after the second push is the store after the
    first, document for document, and the answer is the same.  The second
    write of a record replaces the document under its [record_id]; it does
    not add one. *)
Theorem Push_twice_same_state (d : FirestoreDB) (user : User)
    (query : string → string) (es : list Entry) :
  outcomes d = [] →
  let r := request "POST" user query {| Entries := es |} in
  Push (Push d r).1 r = Push d r.
Proof.
  intros Hd r. subst r. rewrite !Push_request.
  rewrite (pushLoop_healthy user es d) by done. simpl.
  rewrite pushLoop_healthy by done. simpl.
  by rewrite persist_all_twice.
Qed.

Lemma Push_twice_same_state_witness :
  let r := request "POST" op_east no_query sample_batch in
  Push (Push empty_db r).1 r = Push empty_db r
  ∧ entries (Push (Push empty_db r).1 r).1 = {[ "E1" := entry_E1 ]}.
Proof.
  intros r. split.
  - apply (Push_twice_same_state empty_db op_east no_query
             (Entries sample_batch)). reflexivity.
  - vm_compute. reflexivity.
Defined.

(** ** The supervisor/operator relationship over the users collection *)

Section Relationship.

Context (m : gmap string User).
Hypothesis Hwf : users_wf m.

Lemma wf_key k u : m !! k = Some u → UserID u = k ∧ k ≠ "".
Proof.
  destruct Hwf as [Hempty Hkey]. intros Hk. split; [by apply Hkey |].
  intros ->. congruence.
Qed.

Lemma users_wf_insert k u :
  UserID u = k → k ≠ "" → users_wf (<[k := u]> m).
Proof.
  destruct Hwf as [Hempty Hkey]. intros Hid Hne. split.
  - by rewrite lookup_insert_ne.
  - intros k' u' [[<- <-]|[_ Hk]]%lookup_insert_Some; [done |].
    by apply Hkey.
Qed.

Lemma users_wf_delete k : users_wf (delete k m).
Proof.
  destruct Hwf as [Hempty Hkey]. split.
  - apply lookup_delete_None. by right.
  - intros k' u' [_ Hk]%lookup_delete_Some. by apply Hkey.
Qed.

Lemma users_wf_unlink S x : users_wf (unlink m S x).
Proof.
  unfold unlink. destruct (m !! S) as [s|] eqn:HS; [| done].
  destruct (wf_key _ _ HS) as [Hid ?].
  apply users_wf_insert; [done | by rewrite Hid].
Qed.

Lemma users_wf_link S x : users_wf (link m S x).
Proof.
  unfold link. destruct (m !! S) as [s|] eqn:HS; [| done].
  destruct (rangeFinds _ _); [done |].
  destruct (wf_key _ _ HS) as [Hid ?].
  apply users_wf_insert; [done | by rewrite Hid].
Qed.

Lemma unlink_no_supervisor x : unlink m "" x = m.
Proof. unfold unlink. destruct Hwf as [-> _]. done. Qed.

Lemma link_no_supervisor x : link m "" x = m.
Proof. unfold link. destruct Hwf as [-> _]. done. Qed.

(** Rewriting a supervisor's list keeps every user and every
    [supervisor_id]. *)
Lemma unlink_keeps S x op o :
  m !! op = Some o →
  ∃ o', unlink m S x !! op = Some o'
        ∧ SupervisorID o' = SupervisorID o ∧ UserID o' = UserID o.
Proof.
  intros Hop. unfold unlink. destruct (m !! S) as [s|] eqn:HS; [| eauto].
  destruct (wf_key _ _ HS) as [Hid _]. rewrite Hid.
  destruct (decide (S = op)) as [<-|Hne].
  - rewrite lookup_insert_eq. eexists. split; [done |].
    rewrite HS in Hop. by injection Hop as <-.
  - rewrite lookup_insert_ne by done. eauto.
Qed.

Lemma link_keeps S x op o :
  m !! op = Some o →
  ∃ o', link m S x !! op = Some o'
        ∧ SupervisorID o' = SupervisorID o ∧ UserID o' = UserID o.
Proof.
  intros Hop. unfold link. destruct (m !! S) as [s|] eqn:HS; [| eauto].
  destruct (rangeFinds _ _); [eauto |].
  destruct (wf_key _ _ HS) as [Hid _]. rewrite Hid.
  destruct (decide (S = op)) as [<-|Hne].
  - rewrite lookup_insert_eq. eexists. split; [done |].
    rewrite HS in Hop. by injection Hop as <-.
  - rewrite lookup_insert_ne by done. eauto.
Qed.

(** The lists after [unlink]: the supervisor's list without [x], the
    others as they were. *)
Lemma unlink_lists S x sid s :
  unlink m S x !! sid = Some s →
  ∃ s0, m !! sid = Some s0
        ∧ ((sid = S
            ∧ ManagedOperators s
              = filter (λ opID, opID ≠ x) (ManagedOperators s0))
           ∨ (sid ≠ S ∧ s = s0)).
Proof.
  unfold unlink. destruct (m !! S) as [sd|] eqn:HS.
  - destruct (wf_key _ _ HS) as [Hid _]. rewrite Hid.
    intros [[<- <-]|[Hne Hs]]%lookup_insert_Some.
    + exists sd. split; [done |]. left. done.
    + exists s. split; [done |]. right. done.
  - intros Hs. exists s. split; [done |]. right. split; [| done].
    intros ->. congruence.
Qed.

Lemma link_lists S x sid s :
  link m S x !! sid = Some s →
  ∃ s0, m !! sid = Some s0
        ∧ (s = s0
           ∨ (sid = S ∧ (x ∉ ManagedOperators s0)
              ∧ ManagedOperators s = ManagedOperators s0 ++ [x])).
Proof.
  unfold link. destruct (m !! S) as [sd|] eqn:HS; [| eauto].
  destruct (rangeFinds _ _) eqn:Hfind; [eauto |].
  apply rangeFinds_not_elem_of in Hfind.
  destruct (wf_key _ _ HS) as [Hid _]. rewrite Hid.
  intros [[<- <-]|[Hne Hs]]%lookup_insert_Some; [| eauto].
  exists sd. split; [done |]. right. done.
Qed.

Lemma managed_nodup_unlink S x :
  managed_nodup m → managed_nodup (unlink m S x).
Proof.
  intros Hnd sid s (s0 & Hs0 & [[_ ->]|[_ ->]])%unlink_lists.
  - apply NoDup_filter. by eapply Hnd.
  - by eapply Hnd.
Qed.

Lemma managed_nodup_link S x :
  managed_nodup m → managed_nodup (link m S x).
Proof.
  intros Hnd sid s (s0 & Hs0 & [->|(_ & Hnotin & ->)])%link_lists.
  - by eapply Hnd.
  - apply NoDup_app. split; [by eapply Hnd |]. split.
    + intros y Hy ->%list_elem_of_singleton. done.
    + apply NoDup_singleton.
Qed.

Lemma managed_nodup_insert k u :
  managed_nodup m → NoDup (ManagedOperators u) →
  managed_nodup (<[k := u]> m).
Proof.
  intros Hnd Hu sid s [[<- <-]|[_ Hs]]%lookup_insert_Some; [done |].
  by eapply Hnd.
Qed.

Lemma managed_nodup_delete k :
  managed_nodup m → managed_nodup (delete k m).
Proof. intros Hnd sid s [_ Hs]%lookup_delete_Some. by eapply Hnd. Qed.

Lemma point_back_but_unlink x S :
  point_back_but m x S → managed_point_back (unlink m S x).
Proof.
  intros Hpb sid s op (s0 & Hs0 & Hcase)%unlink_lists Hop.
  assert (∃ o, m !! op = Some o ∧ SupervisorID o = sid)
    as (o & Ho & Hsup).
  { destruct Hcase as [[-> Hl]|[Hne ->]].
    - rewrite Hl in Hop. apply list_elem_of_filter in Hop as [Hx Hop].
      destruct (Hpb _ _ _ Hs0 Hop) as (o & Ho & [?|[? _]]); [eauto | done].
    - destruct (Hpb _ _ _ Hs0 Hop) as (o & Ho & [?|[_ ?]]); [eauto | done]. }
  destruct (unlink_keeps S x _ _ Ho) as (o' & Ho' & Hsup' & _).
  exists o'. split; [done | congruence].
Qed.

Lemma managed_point_back_link x S :
  managed_point_back m →
  (m !! S ≠ None → ∃ o, m !! x = Some o ∧ SupervisorID o = S) →
  managed_point_back (link m S x).
Proof.
  intros Hpb Hx sid s op (s0 & Hs0 & Hcase)%link_lists Hop.
  assert (∃ o, m !! op = Some o ∧ SupervisorID o = sid)
    as (o & Ho & Hsup).
  { destruct Hcase as [->|(-> & _ & Hl)]; [by eapply Hpb |].
    rewrite Hl in Hop. apply elem_of_app in Hop as [Hop|Hop].
    - by eapply Hpb.
    - apply list_elem_of_singleton in Hop as ->. apply Hx. congruence. }
  destruct (link_keeps S x _ _ Ho) as (o' & Ho' & Hsup' & _).
  exists o'. split; [done | congruence].
Qed.

Lemma point_back_but_insert x u u' :
  managed_point_back m → m !! x = Some u →
  ManagedOperators u' = ManagedOperators u →
  point_back_but (<[x := u']> m) x (SupervisorID u).
Proof.
  intros Hpb Hx Hl sid s op Hs Hop.
  assert (∃ o, m !! op = Some o ∧ SupervisorID o = sid)
    as (o & Ho & Hsup).
  { apply lookup_insert_Some in Hs as [[<- <-]|[_ Hs]].
    - rewrite Hl in Hop. by eapply Hpb.
    - by eapply Hpb. }
  destruct (decide (x = op)) as [<-|Hne].
  - rewrite lookup_insert_eq. eexists. split; [done |]. right.
    split; [done |]. congruence.
  - rewrite lookup_insert_ne by done. eauto.
Qed.

Lemma point_back_but_settled x S :
  point_back_but m x S → (∀ o, m !! x = Some o → SupervisorID o = S) →
  managed_point_back m.
Proof.
  intros Hpb Hx sid s op Hs Hop.
  destruct (Hpb _ _ _ Hs Hop) as (o & Ho & [?|[-> ->]]); [eauto |].
  exists o. split; [done |]. by apply Hx.
Qed.

Lemma point_back_but_no_supervisor x :
  point_back_but m x "" → managed_point_back m.
Proof.
  intros Hpb sid s op Hs Hop.
  destruct (Hpb _ _ _ Hs Hop) as (o & Ho & [?|[-> ->]]); [eauto |].
  destruct Hwf as [Hempty _]. congruence.
Qed.

Lemma managed_point_back_insert_new k u :
  managed_point_back m → m !! k = None → ManagedOperators u = [] →
  managed_point_back (<[k := u]> m).
Proof.
  intros Hpb Hk Hl sid s op [[<- <-]|[_ Hs]]%lookup_insert_Some Hop.
  - rewrite Hl in Hop. by apply elem_of_nil in Hop.
  - destruct (Hpb _ _ _ Hs Hop) as (o & Ho & Hsup).
    exists o. split; [| done]. rewrite lookup_insert_ne; [done |].
    intros ->. congruence.
Qed.

Lemma managed_point_back_delete x :
  managed_point_back m →
  (∀ sid s, m !! sid = Some s → x ∉ ManagedOperators s) →
  managed_point_back (delete x m).
Proof.
  intros Hpb Hx sid s op [_ Hs]%lookup_delete_Some Hop.
  destruct (Hpb _ _ _ Hs Hop) as (o & Ho & Hsup).
  exists o. split; [| done]. apply lookup_delete_Some. split; [| done].
  intros ->. exact (Hx _ _ Hs Hop).
Qed.

(** Under the invariant a user is listed by its own supervisor alone, so
    after [unlink] from that supervisor nobody lists it. *)
Lemma unlisted_after_unlink x u :
  managed_point_back m → m !! x = Some u →
  ∀ sid s, unlink m (SupervisorID u) x !! sid = Some s →
           x ∉ ManagedOperators s.
Proof.
  intros Hpb Hx sid s (s0 & Hs0 & Hcase)%unlink_lists Hin.
  destruct Hcase as [[-> Hl]|[Hne ->]].
  - rewrite Hl in Hin. by apply list_elem_of_filter in Hin as [? _].
  - destruct (Hpb _ _ _ Hs0 Hin) as (o & Ho & Hsup). congruence.
Qed.

End Relationship.

Lemma point_back_but_intro m x S :
  managed_point_back m → point_back_but m x S.
Proof.
  intros Hpb sid s op Hs Hop.
  destruct (Hpb _ _ _ Hs Hop) as (o & Ho & Hsup). eauto.
Qed.

(** ** The admin handlers when the store answers *)

Lemma UpdateUser_healthy d user :
  outcomes d = [] →
  db.UpdateUser d user
  = (with_users d (<[UserID user := user]> (users d)), nil).
Proof. intros Hd. unfold db.UpdateUser. by rewrite call_healthy. Qed.

Lemma CreateUser_healthy d user :
  outcomes d = [] →
  db.CreateUser d user
  = (with_users d (<[UserID user := user]> (users d)), nil).
Proof. intros Hd. unfold db.CreateUser. by rewrite call_healthy. Qed.

Lemma DeleteUser_healthy d userID :
  outcomes d = [] →
  db.DeleteUser d userID = (with_users d (delete userID (users d)), nil).
Proof. intros Hd. unfold db.DeleteUser. by rewrite call_healthy. Qed.

Lemma GetUserByUsername_healthy d username :
  outcomes d = [] → (GetUserByUsername d username).1 = d.
Proof.
  intros Hd. unfold GetUserByUsername. rewrite call_healthy by done.
  by destruct (filter _ _).
Qed.

Lemma removeManaged_healthy d S x :
  outcomes d = [] →
  users (removeManaged d S x) = unlink (users d) S x
  ∧ outcomes (removeManaged d S x) = [].
Proof.
  intros Hd. unfold removeManaged, unlink.
  rewrite GetUser_healthy by done.
  destruct (users d !! S) as [s|]; [| done].
  rewrite UpdateUser_healthy by done. simpl.
  by rewrite rangeWithout_filter.
Qed.

Lemma addManaged_healthy d S x :
  outcomes d = [] →
  users (addManaged d S x) = link (users d) S x
  ∧ outcomes (addManaged d S x) = [].
Proof.
  intros Hd. unfold addManaged, link.
  rewrite GetUser_healthy by done.
  destruct (users d !! S) as [s|]; [| done].
  destruct (rangeFinds _ _); [done |].
  by rewrite UpdateUser_healthy.
Qed.

Lemma UpdateUser_users d r :
  outcomes d = [] → users_wf (users d) →
  users (UpdateUser d r).1 = users d
  ∨ ∃ req u,
      users d !! updUserID req = Some u
      ∧ users (UpdateUser d r).1
        = let m1 := <[updUserID req := updated u req]> (users d) in
          if decide (SupervisorID u ≠ updSupervisorID req)
          then link (unlink m1 (SupervisorID u) (updUserID req))
                 (updSupervisorID req) (updUserID req)
          else m1.
Proof.
  intros Hd Hwf. unfold UpdateUser.
  destruct (decide (Method r ≠ "PUT")); [by left |].
  destruct (ContextUser r) as [adminUser|]; [| by left].
  destruct (Body r) as [req|]; [| by left].
  destruct (decide (updUserID req = "")); [by left |].
  rewrite GetUser_healthy by done.
  destruct (users d !! updUserID req) as [u|] eqn:Hu; [| by left].
  destruct (wf_key _ Hwf _ _ Hu) as [Hid Hne].
  right. exists req, u. split; [done |].
  rewrite UpdateUser_healthy by done.
  change (UserID {| UserID := UserID u |}) with (UserID u).
  fold (updated u req). cbv zeta. simpl UserID. rewrite Hid.
  set (d1 := with_users d _).
  assert (Hd1 : outcomes d1 = []) by done.
  assert (Hwf1 : users_wf (users d1)).
  { simpl. apply users_wf_insert; done. }
  destruct (decide (SupervisorID u ≠ updSupervisorID req)); [| done].
  simpl.
  set (d2 := if decide (SupervisorID u ≠ "") then _ else d1).
  assert (Hd2 : users d2 = unlink (users d1) (SupervisorID u)
                             (updUserID req)
                ∧ outcomes d2 = []).
  { subst d2. destruct (decide (SupervisorID u ≠ "")) as [|He].
    - by apply removeManaged_healthy.
    - apply dec_stable in He. rewrite He.
      by rewrite unlink_no_supervisor. }
  destruct Hd2 as [Hu2 Ho2].
  destruct (decide (updSupervisorID req ≠ "")) as [|He].
  - destruct (addManaged_healthy d2 (updSupervisorID req)
                (updUserID req) Ho2) as [-> _].
    by rewrite Hu2.
  - apply dec_stable in He. rewrite He, link_no_supervisor.
    + done.
    + apply users_wf_unlink. done.
Qed.

Lemma DeleteUser_users d r :
  outcomes d = [] → users_wf (users d) →
  (users (DeleteUser d r).1 = users d ∧ status (DeleteUser d r).2 ≠ 200)
  ∨ ∃ req u,
      Body r = Some req
      ∧ users d !! delUserID req = Some u
      ∧ users (DeleteUser d r).1
        = delete (delUserID req)
            (unlink (users d) (SupervisorID u) (delUserID req)).
Proof.
  intros Hd Hwf. unfold DeleteUser.
  destruct (decide (Method r ≠ "DELETE")); [by left |].
  destruct (ContextUser r) as [adminUser|]; [| by left].
  destruct (Body r) as [req|]; [| by left].
  destruct (decide (delUserID req = "")); [by left |].
  destruct (decide (delUserID req = UserID adminUser)); [by left |].
  rewrite GetUser_healthy by done.
  destruct (users d !! delUserID req) as [u|] eqn:Hu; [| by left].
  right. exists req, u. split; [done |]. split; [done |].
  cbv zeta.
  set (d1 := if decide (SupervisorID u ≠ "") then _ else d).
  assert (Hd1 : users d1 = unlink (users d) (SupervisorID u)
                             (delUserID req)
                ∧ outcomes d1 = []).
  { subst d1. destruct (decide (SupervisorID u ≠ "")) as [|He].
    - by apply removeManaged_healthy.
    - apply dec_stable in He. rewrite He.
      by rewrite unlink_no_supervisor. }
  destruct Hd1 as [Hu1 Ho1].
  rewrite DeleteUser_healthy by done. simpl. by rewrite Hu1.
Qed.

Lemma CreateUser_users `{Externals} d now nowStored r :
  outcomes d = [] →
  users (CreateUser d now nowStored r).1 = users d
  ∨ ∃ req,
      Body r = Some req
      ∧ let m1 := <["user-" +:+ newUsername req := created now req]>
                    (users d) in
        users (CreateUser d now nowStored r).1 = m1
        ∨ users (CreateUser d now nowStored r).1
          = link m1 (newSupervisorID req) ("user-" +:+ newUsername req).
Proof.
  intros Hd. unfold CreateUser.
  destruct (decide (Method r ≠ "POST")); [by left |].
  destruct (ContextUser r) as [adminUser|]; [| by left].
  destruct (Body r) as [req|]; [| by left].
  destruct (decide (newUsername req = "" ∨ newPassword req = ""));
    [by left |].
  destruct (auth.ValidatePasswordStrength _); [by left |].
  pose proof (GetUserByUsername_healthy d (newUsername req) Hd) as Hsame.
  destruct (GetUserByUsername d (newUsername req)) as [d0 [existing|err]];
    simpl in Hsame; subst d0; [by left |].
  right. exists req. split; [done |]. cbv zeta.
  fold (created now req).
  rewrite CreateUser_healthy by done.
  change (UserID (created now req)) with ("user-" +:+ newUsername req).
  destruct (auth.HashPassword _); [| by left].
  rewrite StorePasswordHash_healthy by done.
  destruct (decide (newRole req = RoleGateOperator
                    ∧ newSupervisorID req ≠ "")); [| by left].
  right. cbn [fst].
  match goal with
  | |- context [addManaged ?d1 ?S ?x] =>
      destruct (addManaged_healthy d1 S x) as [Hl _]; [done |];
      rewrite Hl
  end.
  done.
Qed.

Lemma linked_update m req u :
  linked m → m !! updUserID req = Some u →
  linked
    (let m1 := <[updUserID req := updated u req]> m in
     if decide (SupervisorID u ≠ updSupervisorID req)
     then link (unlink m1 (SupervisorID u) (updUserID req))
            (updSupervisorID req) (updUserID req)
     else m1).
Proof.
  intros (Hwf & Hpb & Hnd) Hu. cbv zeta.
  destruct (wf_key _ Hwf _ _ Hu) as [Hid Hne].
  set (m1 := <[updUserID req := updated u req]> m).
  assert (Hwf1 : users_wf m1) by (by apply users_wf_insert).
  assert (Hnd1 : managed_nodup m1).
  { apply managed_nodup_insert; [done |]. simpl. by eapply Hnd. }
  assert (Hpb1 : point_back_but m1 (updUserID req) (SupervisorID u)).
  { by apply point_back_but_insert. }
  assert (Hx1 : m1 !! updUserID req = Some (updated u req)).
  { apply lookup_insert_eq. }
  destruct (decide (SupervisorID u ≠ updSupervisorID req)) as [Hchg|Hsame].
  - set (m2 := unlink m1 (SupervisorID u) (updUserID req)).
    assert (Hwf2 : users_wf m2) by (by apply users_wf_unlink).
    split; [by apply users_wf_link |].
    split; [| by apply managed_nodup_link, managed_nodup_unlink].
    apply managed_point_back_link; [done | |].
    + by apply point_back_but_unlink.
    + intros Hsome.
      destruct (unlink_keeps m1 Hwf1 (SupervisorID u) (updUserID req)
                  _ _ Hx1) as (o & Ho & Hsup & _).
      exists o. split; [done |]. rewrite Hsup. simpl.
      rewrite decide_True; [done |].
      intros He. rewrite He in Hsome. by destruct Hwf2 as [? _].
  - apply dec_stable in Hsame.
    split; [done |]. split; [| done].
    apply (point_back_but_settled m1 (updUserID req) (SupervisorID u));
      [done |].
    intros o Ho. rewrite Hx1 in Ho. injection Ho as <-. simpl.
    destruct (decide (updSupervisorID req ≠ "")); congruence.
Qed.

Lemma linked_delete m x u :
  linked m → m !! x = Some u →
  linked (delete x (unlink m (SupervisorID u) x)).
Proof.
  intros (Hwf & Hpb & Hnd) Hu.
  split; [by apply users_wf_delete, users_wf_unlink |].
  split; [| by apply managed_nodup_delete, managed_nodup_unlink].
  apply managed_point_back_delete.
  - apply point_back_but_unlink; [done |]. by apply point_back_but_intro.
  - by apply unlisted_after_unlink.
Qed.

Lemma linked_create m now req :
  linked m → m !! ("user-" +:+ newUsername req) = None →
  let m1 := <["user-" +:+ newUsername req := created now req]> m in
  linked m1
  ∧ linked (link m1 (newSupervisorID req) ("user-" +:+ newUsername req)).
Proof.
  intros (Hwf & Hpb & Hnd) Hnew m1.
  assert (Hwf1 : users_wf m1) by (by apply users_wf_insert).
  assert (Hnd1 : managed_nodup m1).
  { apply managed_nodup_insert; [done |]. apply NoDup_nil_2. }
  assert (Hpb1 : managed_point_back m1).
  { by apply managed_point_back_insert_new. }
  split; [done |].
  split; [by apply users_wf_link |].
  split; [| by apply managed_nodup_link].
  apply managed_point_back_link; [done | done |].
  intros _. exists (created now req). split; [| done].
  apply lookup_insert_eq.
Qed.

Lemma seeded_linked : linked (users seeded_db).
Proof.
  split; [| split].
  - split; [done |]. intros k u Hk. simpl in Hk.
    repeat (apply lookup_insert_Some in Hk as [[<- <-]|[_ Hk]]; [done |]).
    by apply lookup_singleton_Some in Hk as [<- <-].
  - intros sid s op Hs Hop. simpl in Hs.
    apply lookup_insert_Some in Hs as [[<- <-]|[_ Hs]];
      [by apply elem_of_nil in Hop |].
    apply lookup_insert_Some in Hs as [[<- <-]|[_ Hs]].
    + apply list_elem_of_singleton in Hop as ->.
      exists op_east_managed. split; done.
    + apply lookup_singleton_Some in Hs as [<- <-].
      by apply elem_of_nil in Hop.
  - intros sid s Hs. simpl in Hs.
    repeat (apply lookup_insert_Some in Hs as [[<- <-]|[_ Hs]];
            [repeat constructor; set_solver |]).
    apply lookup_singleton_Some in Hs as [<- <-]. constructor.
Qed.

(** ** User management *)

(** C6, as the code has it.  While the store answers its calls, every
    user update and delete keeps the relationship, and so does every create
    whose generated id is not yet in use: each id in a [managed_operators]
    list is a user whose [supervisor_id] points back, and no list repeats
    an id.  After a delete the deleted id is no user and is in no
    [managed_operators] list, and the [supervisor_id] of every other user
    is what it was. *)
Theorem relationship_kept_by_user_management `{Externals}
    (d : FirestoreDB) :
  outcomes d = [] → linked (users d) →
  (∀ now nowStored r,
     (∀ req, Body r = Some req →
             users d !! ("user-" +:+ newUsername req) = None) →
     linked (users (CreateUser d now nowStored r).1))
  ∧ (∀ r, linked (users (UpdateUser d r).1))
  ∧ (∀ r, linked (users (DeleteUser d r).1))
  ∧ (∀ r req, Body r = Some req → status (DeleteUser d r).2 = 200 →
       users (DeleteUser d r).1 !! delUserID req = None
       ∧ (∀ sid s, users (DeleteUser d r).1 !! sid = Some s →
                   delUserID req ∉ ManagedOperators s)
       ∧ (∀ k u, k ≠ delUserID req → users d !! k = Some u →
            ∃ u', users (DeleteUser d r).1 !! k = Some u'
                  ∧ SupervisorID u' = SupervisorID u)).
Proof.
  intros Hd Hlinked. pose proof Hlinked as (Hwf & Hpb & Hnd).
  split; [| split; [| split]].
  - intros now nowStored r Hnew.
    destruct (CreateUser_users d now nowStored r Hd)
      as [-> | (req & Hreq & [-> | ->])]; [done | |];
      by apply linked_create; [| apply Hnew].
  - intros r.
    destruct (UpdateUser_users d r Hd Hwf) as [-> | (req & u & Hu & ->)];
      [done |]. by apply linked_update.
  - intros r.
    destruct (DeleteUser_users d r Hd Hwf)
      as [[-> _] | (req & u & _ & Hu & ->)]; [done |].
    by apply linked_delete.
  - intros r req Hreq Hok.
    destruct (DeleteUser_users d r Hd Hwf)
      as [[_ Hno] | (req' & u & Hreq' & Hu & ->)]; [done |].
    rewrite Hreq in Hreq'. injection Hreq' as <-.
    split; [apply lookup_delete_eq |]. split.
    + intros sid s [_ Hs]%lookup_delete_Some.
      by eapply unlisted_after_unlink.
    + intros k u0 Hk Hu0.
      destruct (unlink_keeps _ Hwf (SupervisorID u) (delUserID req)
                  _ _ Hu0) as (o & Ho & Hsup & _).
      exists o. split; [| done]. by rewrite lookup_delete_ne.
Qed.

Lemma relationship_kept_by_user_management_witness :
  linked
    (users (DeleteUser seeded_db
              (request "DELETE" sample_admin no_query
                 {| delUserID := "user-op-east" |})).1).
Proof.
  destruct (@relationship_kept_by_user_management sample_externals
              seeded_db eq_refl seeded_linked) as (_ & _ & Hdel & _).
  apply Hdel.
Defined.

(** C6, as stated, fails: deleting the supervisor of the seeded pair is
    answered with success and leaves the operator with the deleted
    supervisor's id as its [supervisor_id]. *)
Lemma DeleteUser_leaves_supervisor_id :
  linked (users seeded_db)
  ∧ ∃ d',
      DeleteUser seeded_db
        (request "DELETE" sample_admin no_query delete_john)
      = (d', OK "User deleted successfully")
      ∧ users d' !! "user-supervisor-john" = None
      ∧ ∃ o, users d' !! "user-op-east" = Some o
             ∧ SupervisorID o = "user-supervisor-john".
Proof.
  split; [apply seeded_linked |].
  eexists. split; [vm_compute; reflexivity |].
  split; [vm_compute; reflexivity |].
  exists op_east_managed. split; vm_compute; reflexivity.
Qed.

(** ** Sync pull *)


Lemma GetEntriesSince_healthy d since :
  outcomes d = [] →
  GetEntriesSince d since
  = (d, inl (filter (λ entry, since < CreatedAt entry)
               (Documents (entries d)))).
Proof. intros Hd. unfold GetEntriesSince. by rewrite call_healthy. Qed.

Lemma elem_of_Documents {A} (coll : gmap string A) (x : A) :
  x ∈ Documents coll ↔ ∃ k, coll !! k = Some x.
Proof.
  unfold Documents. rewrite list_elem_of_fmap. split.
  - intros ([k y] & -> & Hin). exists k. by apply elem_of_map_to_list.
  - intros [k Hk]. exists (k, x). split; [done |].
    by apply elem_of_map_to_list.
Qed.

(** What [Pull] returns while the store answers: with a [since] that
    parses to [T], the visible documents whose [created_at] is after [T];
    without [since], the visible documents; in both cases [count] is the
    length of the list. *)
Lemma Pull_since `{Externals} d user query T :
  outcomes d = [] → query "since" ≠ "" →
  time_Parse_RFC3339 (query "since") = Some T →
  ∃ resp,
    Pull d (request "GET" user query ()) = (d, OK resp)
    ∧ Count resp = Z.of_nat (length (PullEntries resp))
    ∧ ∀ e, e ∈ PullEntries resp
           ↔ (∃ k, entries d !! k = Some e) ∧ T < CreatedAt e
             ∧ visible user e.
Proof.
  intros Hd Hq HT. unfold Pull, request. simpl.
  rewrite decide_True by done. rewrite HT.
  rewrite GetEntriesSince_healthy by done.
  eexists. split; [reflexivity |]. simpl. split; [done |].
  intros e.
  destruct (filterEntriesByRole_visible
              (filter (λ entry, T < CreatedAt entry)
                 (Documents (entries d))) user e) as [H1 H2].
  rewrite list_elem_of_filter, elem_of_Documents in H1, H2.
  split; [intros Hin; apply H1 in Hin | intros Hin; apply H2]; tauto.
Qed.


(** C3 at a failing input.  The store holds one entry, created at 10 and
    updated at 100; an administrator, who sees every entry, pulls with
    [since] = 50.  The entry was updated after 50, and [Pull] returns the
    empty list with count 0, because [GetEntriesSince] compares
    [created_at].  The delta query of the prototype,
    [mockQueryUpdatedSince], returns the entry. *)
Theorem Pull_since_compares_created_at :
  entries pull_db !! "E1" = Some entry_E1
  ∧ 50 < UpdatedAt entry_E1
  ∧ visible sample_admin entry_E1
  ∧ @Pull sample_externals pull_db (request "GET" sample_admin since_50 ())
    = (pull_db, OK {| PullEntries := []; Count := 0 |})
  ∧ mock.mockQueryUpdatedSince (entries pull_db) 50 [] = [entry_E1].
Proof.
  split; [reflexivity |]. split; [reflexivity |].
  split; [by left |]. split; vm_compute; reflexivity.
Qed.

(** ** Timestamps of pushed entries *)


(** C4 at a failing input.  A gate operator pushes [entry_E1] with
    [updated_at] 100, then the same record with [updated_at] 50: the
    stored document is replaced and its [updated_at] goes down from 100 to
    50.  An entry pushed without [created_at] and [updated_at] is stored
    with the zero time in both: [Push] reads no clock and changes no field
    of the entry. *)
Theorem Push_keeps_client_timestamps :
  let d1 := (Push empty_db (push_one entry_E1)).1 in
  let d2 := (Push d1 (push_one entry_E1_older)).1 in
  entries d1 !! "E1" = Some entry_E1
  ∧ entries d2 !! "E1" = Some entry_E1_older
  ∧ UpdatedAt entry_E1_older < UpdatedAt entry_E1
  ∧ entries (Push empty_db (push_one entry_E0)).1 !! "E0" = Some entry_E0
  ∧ CreatedAt entry_E0 = zeroTime ∧ UpdatedAt entry_E0 = zeroTime.
Proof. repeat split; vm_compute; reflexivity. Qed.

(** ** Scenarios of the specification *)

(** A gate operator allowed at [CP-1] pushes [E1] for [CP-1]: accepted.
    The same operator pushes [E2] for [CP-2]: rejected, with [E2] among the
    rejected ids and nothing stored. *)
Example scenario_push_allowed_checkpoint :
  Push empty_db (push_one entry_E1)
  = ({| entries := {[ "E1" := entry_E1 ]}; users := ∅; passwords := ∅;
        outcomes := [] |},
     OK {| Success := true; Accepted := 1; Rejected := 0;
           RejectedIDs := []; Message := "Sync completed" |}).
Proof. vm_compute. reflexivity. Qed.

Example scenario_push_other_checkpoint :
  Push empty_db (push_one entry_E2)
  = (empty_db,
     OK {| Success := false; Accepted := 0; Rejected := 1;
           RejectedIDs := ["E2"]; Message := "Sync completed" |}).
Proof. vm_compute. reflexivity. Qed.

(** A supervisor who manages [user-op-east] pulls from a store with
    entries of [user-op-east] and [user-op-west]: the entry of
    [user-op-east] alone comes back. *)
Example scenario_supervisor_pull :
  @Pull sample_externals two_authors_db
    (request "GET" sup_john no_query ())
  = (two_authors_db, OK {| PullEntries := [entry_E1]; Count := 1 |}).
Proof. vm_compute. reflexivity. Qed.

(** A store call that fails rejects its entry and the loop goes on. *)
Example scenario_store_failure :
  Push {| entries := ∅; users := ∅; passwords := ∅;
          outcomes := [false; true] |}
    (request "POST" op_east no_query
       {| Entries := [entry_E0; entry_E2; entry_E1] |})
  = ({| entries := {[ "E1" := entry_E1 ]}; users := ∅; passwords := ∅;
        outcomes := [] |},
     OK {| Success := false; Accepted := 1; Rejected := 2;
           RejectedIDs := ["E0"; "E2"]; Message := "Sync completed" |}).
Proof. vm_compute. reflexivity. Qed.

(** * Further properties of the code *)

(** ** Password policy: which error *)

(** X1. [ValidatePasswordStrength] reports the first requirement that
    fails, in the order length, letter, digit: the too-short error exactly
    for passwords under eight bytes, the no-letter error exactly for
    passwords of eight bytes or more without a letter, the no-number error
    exactly for passwords of eight bytes or more with a letter and without
    a digit.  It never reports a hashing failure. *)
Theorem ValidatePasswordStrength_first_failure (password : string) :
  (auth.ValidatePasswordStrength password = Some auth.ErrTooShort
   ↔ auth.len password < auth.MinPasswordLength)
  ∧ (auth.ValidatePasswordStrength password = Some auth.ErrNoLetter
     ↔ auth.MinPasswordLength ≤ auth.len password
       ∧ ¬ auth.has_letter password)
  ∧ (auth.ValidatePasswordStrength password = Some auth.ErrNoNumber
     ↔ auth.MinPasswordLength ≤ auth.len password
       ∧ auth.has_letter password ∧ ¬ auth.has_digit password)
  ∧ auth.ValidatePasswordStrength password ≠ Some auth.ErrHashFailed.
Proof.
  unfold auth.ValidatePasswordStrength.
  rewrite scanPassword_existsb, has_letter_existsb, has_digit_existsb.
  simpl.
  destruct (Z.ltb_spec (auth.len password) auth.MinPasswordLength).
  - repeat split; try discriminate; try done; intros [? _]; lia.
  - destruct (existsb auth.isLetter _), (existsb auth.isNumber _); simpl;
      repeat split; try discriminate; try lia; try done;
      try (intros (_ & ? & ?); done); try (intros [_ ?]; done).
Qed.

(** ** Visibility: the filter as an operation on lists *)

Lemma visible_entries_twice es user :
  visible_entries (visible_entries es user) user = visible_entries es user.
Proof.
  unfold visible_entries.
  destruct (decide (Role user = RoleAdmin)); [done |].
  destruct (decide (Role user = RoleSupervisor)).
  - destruct (decide (ManagedOperators user = [])); [done |].
    by apply list_filter_filter_l.
  - destruct (decide (Role user = RoleGateOperator)); [| done].
    by apply list_filter_filter_l.
Qed.

(** X2. [filterEntriesByRole] only drops entries: its result is a
    sublist of its input, in the input's order.  Filtering a filtered list
    again for the same user changes nothing. *)
Theorem filterEntriesByRole_sublist_idempotent (user : User)
    (entries : list Entry) :
  filterEntriesByRole entries user `sublist_of` entries
  ∧ filterEntriesByRole (filterEntriesByRole entries user) user
    = filterEntriesByRole entries user.
Proof.
  rewrite !filterEntriesByRole_visible_entries. split.
  - unfold visible_entries. repeat case_decide;
      auto using sublist_filter, sublist_nil_l.
  - apply visible_entries_twice.
Qed.

(** X3. [filterEntriesByRole] works entry by entry: the filter of two
    lists put end to end is the two filters put end to end. *)
Theorem filterEntriesByRole_app (user : User) (es1 es2 : list Entry) :
  filterEntriesByRole (es1 ++ es2) user
  = filterEntriesByRole es1 user ++ filterEntriesByRole es2 user.
Proof.
  rewrite !filterEntriesByRole_visible_entries. unfold visible_entries.
  repeat case_decide; by rewrite ?filter_app.
Qed.

(** ** The Authorization header *)

Lemma substring_all s : substring 0 (String.length s) s = s.
Proof. induction s as [|c s IH]; simpl; [done | by rewrite IH]. Qed.

Lemma ExtractToken_token authHeader token :
  jwt.ExtractToken authHeader = inl token
  ↔ authHeader = "Bearer " +:+ token.
Proof.
  split.
  - unfold jwt.ExtractToken, auth.len.
    destruct (decide (authHeader = "")); [discriminate |].
    destruct (Z.ltb_spec (Z.of_nat (String.length authHeader)) 7);
      [discriminate |].
    destruct (bool_decide (substring 0 7 authHeader = "Bearer "))
      eqn:Hprefix; [| discriminate].
    apply bool_decide_eq_true in Hprefix. simpl. intros [= <-].
    do 7 (destruct authHeader as [|? authHeader];
          [simpl in *; lia |]).
    simpl in Hprefix. injection Hprefix as -> -> -> -> -> -> -> _.
    simpl. by rewrite Nat.sub_0_r, substring_all.
  - intros ->. unfold jwt.ExtractToken, auth.len. simpl.
    change ("" +:+ token) with token.
    destruct (Z.ltb_spec
                (Z.of_nat (S (S (S (S (S (S (S (String.length token)))))))))
                7); [lia |].
    assert (substring 0 0 token = "") as -> by (by destruct token).
    simpl. by rewrite Nat.sub_0_r, substring_all.
Qed.

(** X4. [ExtractToken] returns a token exactly for the headers that are
    ["Bearer "] followed by that token (the token may be empty, and the
    prefix is matched byte for byte); it reports an empty header exactly
    for the empty string, and a format error for every other header. *)
Theorem ExtractToken_bearer (authHeader : string) :
  (∀ token, jwt.ExtractToken authHeader = inl token
            ↔ authHeader = "Bearer " +:+ token)
  ∧ (jwt.ExtractToken authHeader = inr jwt.ErrHeaderEmpty
     ↔ authHeader = "")
  ∧ (jwt.ExtractToken authHeader = inr jwt.ErrHeaderFormat
     ↔ authHeader ≠ "" ∧ ∀ token, authHeader ≠ "Bearer " +:+ token).
Proof.
  split; [intros token; apply ExtractToken_token |]. split.
  - unfold jwt.ExtractToken. destruct (decide (authHeader = "")); [done |].
    split; [| done]. by destruct (_ || _).
  - split.
    + intros Herr. split.
      * intros ->. discriminate.
      * intros token Htoken. apply ExtractToken_token in Htoken.
        congruence.
    + intros [Hne Hno]. unfold jwt.ExtractToken.
      rewrite decide_False by done.
      destruct (_ || _) eqn:Htest; [done |].
      exfalso. eapply Hno. apply ExtractToken_token.
      unfold jwt.ExtractToken.
      rewrite decide_False by done. by rewrite Htest.
Qed.

(** ** The delta query of the prototype *)

Lemma foldl_append_filter {A} (P : A → Prop) `{!∀ x, Decision (P x)}
    (f : list A → A → list A) (l acc : list A) :
  (∀ results x, f results x = if decide (P x) then results ++ [x]
                              else results) →
  foldl f acc l = acc ++ filter P l.
Proof.
  intros Hf. revert acc. induction l as [|x l IH]; intros acc; simpl.
  - by rewrite app_nil_r.
  - rewrite IH, Hf, filter_cons. destruct (decide (P x)); [| done].
    by rewrite <- app_assoc.
Qed.

(** X5. [mockQueryUpdatedSince] returns exactly the stored entries that
    were updated after [lastSync] and whose checkpoint is in the list,
    where an empty list stands for every checkpoint. *)
Theorem mockQueryUpdatedSince_elem_of (mockDB : gmap string Entry)
    (lastSync : Time) (allowedCheckpoints : list string) (e : Entry) :
  e ∈ mock.mockQueryUpdatedSince mockDB lastSync allowedCheckpoints
  ↔ (∃ k, mockDB !! k = Some e)
    ∧ lastSync < UpdatedAt e
    ∧ (allowedCheckpoints = []
       ∨ CheckpointID e ∈ allowedCheckpoints).
Proof.
  unfold mock.mockQueryUpdatedSince.
  rewrite (foldl_append_filter
             (λ entry, lastSync < UpdatedAt entry
                       ∧ (allowedCheckpoints = []
                          ∨ CheckpointID entry ∈ allowedCheckpoints))).
  - simpl. rewrite list_elem_of_filter, elem_of_Documents. tauto.
  - intros results x.
    destruct (decide (lastSync < UpdatedAt x)) as [Hlt|Hlt].
    + destruct allowedCheckpoints as [|cp cps].
      * simpl. rewrite decide_True; [done | auto].
      * rewrite bool_decide_eq_false_2 by done.
        destruct (rangeFinds (cp :: cps) (CheckpointID x)) eqn:Hfind.
        -- apply rangeFinds_elem_of in Hfind.
           rewrite decide_True; [done | auto].
        -- apply rangeFinds_not_elem_of in Hfind.
           rewrite decide_False; [done |]. intros [_ [?|?]]; done.
    + rewrite decide_False; [done |]. by intros [? _].
Qed.

(** ** Sync push: what the loop does to the store *)

Lemma pushLoop_keeps_ids user es d accepted rejected rejectedIDs k :
  is_Some (entries d !! k) →
  is_Some (entries (pushLoop user es d accepted rejected rejectedIDs).1
             !! k).
Proof.
  revert d accepted rejected rejectedIDs.
  induction es as [|e es IH]; intros d accepted rejected rejectedIDs Hk.
  - done.
  - push_head user e d; apply IH.
    + simpl. rewrite lookup_insert_is_Some.
      destruct (decide (RecordID e = k)); auto.
    + by rewrite advance_entries.
    + done.
Qed.

(** X6. Whatever the request and whatever the store answers, [Push]
    leaves the users and the passwords alone and deletes no entry: every
    record id in use before is in use after, and every document of the
    entries collection after the push was there before or is an entry of
    the request body, stored under its own [record_id]. *)
Theorem Push_only_upserts (d : FirestoreDB) (r : Request SyncPushRequest) :
  users (Push d r).1 = users d
  ∧ passwords (Push d r).1 = passwords d
  ∧ (∀ k, is_Some (entries d !! k) → is_Some (entries (Push d r).1 !! k))
  ∧ (∀ k x, entries (Push d r).1 !! k = Some x →
       entries d !! k = Some x
       ∨ ∃ req, Body r = Some req ∧ x ∈ Entries req ∧ RecordID x = k).
Proof.
  unfold Push.
  destruct (decide (Method r ≠ "POST")); [by auto |].
  destruct (ContextUser r) as [user|]; [| by auto].
  destruct (Body r) as [req|]; [| by auto].
  pose proof (pushLoop_other_collections user (Entries req) d 0 0 [])
    as [Hu Hp].
  pose proof (pushLoop_keeps_ids user (Entries req) d 0 0 []) as Hids.
  pose proof (pushLoop_store user (Entries req) d 0 0 []) as Hstore.
  destruct (pushLoop user (Entries req) d 0 0 [])
    as [d' [[accepted rejected] ids]]. simpl in *.
  split; [done |]. split; [done |]. split; [done |].
  intros k x Hx. destruct (Hstore k x Hx) as [?|(? & _ & ?)]; [by left |].
  right. by exists req.
Qed.

Lemma pushLoop_shift user es d a0 r0 ids0 a r ids :
  pushLoop user es d (a + a0) (r + r0) (ids ++ ids0)
  = let '(d', (a', r', ids')) := pushLoop user es d a0 r0 ids0 in
    (d', (a + a', r + r', ids ++ ids')).
Proof.
  revert d a0 r0 ids0.
  induction es as [|e es IH]; intros d a0 r0 ids0; [done |].
  destruct (decide (write_authorized user e)).
  - rewrite !pushLoop_authorized by done.
    destruct (CreateEntry_cases d e) as [-> | ->].
    + rewrite <- Z.add_assoc. apply IH.
    + rewrite <- Z.add_assoc, <- app_assoc. apply IH.
  - rewrite !pushLoop_rejected by done.
    rewrite <- Z.add_assoc, <- app_assoc. apply IH.
Qed.

Lemma pushLoop_app user es1 es2 d accepted rejected rejectedIDs :
  pushLoop user (es1 ++ es2) d accepted rejected rejectedIDs
  = let '(d1, (a1, r1, ids1)) :=
      pushLoop user es1 d accepted rejected rejectedIDs in
    pushLoop user es2 d1 a1 r1 ids1.
Proof.
  revert d accepted rejected rejectedIDs.
  induction es1 as [|e es1 IH]; intros d accepted rejected rejectedIDs;
    [done |].
  rewrite <- app_comm_cons.
  destruct (decide (write_authorized user e)).
  - rewrite !pushLoop_authorized by done.
    destruct (CreateEntry_cases d e) as [-> | ->]; apply IH.
  - rewrite !pushLoop_rejected by done. apply IH.
Qed.

(** X7. Pushing two batches one after the other is pushing them as one
    batch: the store ends the same, the accepted and rejected counts add
    up, the rejected ids follow one another, and the whole succeeds
    exactly when both parts do. *)
Theorem Push_concatenated_batches (d : FirestoreDB) (user : User)
    (query : string → string) (es1 es2 : list Entry) :
  ∃ d1 resp1 d2 resp2,
    Push d (request "POST" user query {| Entries := es1 |})
    = (d1, OK resp1)
    ∧ Push d1 (request "POST" user query {| Entries := es2 |})
      = (d2, OK resp2)
    ∧ Push d (request "POST" user query {| Entries := es1 ++ es2 |})
      = (d2, OK {| Success := Success resp1 && Success resp2;
                   Accepted := Accepted resp1 + Accepted resp2;
                   Rejected := Rejected resp1 + Rejected resp2;
                   RejectedIDs := RejectedIDs resp1 ++ RejectedIDs resp2;
                   Message := "Sync completed" |}).
Proof.
  destruct (pushLoop_counts user es1 d 0 0 [])
    as (d1 & a1 & more1 & H1 & _ & _).
  destruct (pushLoop_counts user es2 d1 0 0 [])
    as (d2 & a2 & more2 & H2 & _ & _).
  simpl in H1, H2. rewrite Z.add_0_l in H1, H2.
  pose proof (pushLoop_shift user es2 d1 0 0 [] a1
                (Z.of_nat (length more1)) more1) as Hshift.
  rewrite !Z.add_0_r, app_nil_r, H2 in Hshift.
  eexists d1, _, d2, _.
  split; [by rewrite Push_request, H1 |].
  split; [by rewrite Push_request, H2 |].
  rewrite Push_request, pushLoop_app, H1, Hshift. simpl.
  do 2 f_equal. f_equal.
  repeat case_bool_decide; simpl; try done; lia.
Qed.

Lemma latest_None k es :
  (∀ x, x ∈ es → RecordID x ≠ k) → latest k es = None.
Proof.
  induction es as [|e es IH]; intros Hne; [done |]. simpl.
  rewrite IH by (intros x Hx; apply Hne; by right).
  rewrite decide_False; [done |]. apply Hne. by left.
Qed.

Lemma latest_last k es1 e es2 :
  RecordID e = k → (∀ x, x ∈ es2 → RecordID x ≠ k) →
  latest k (es1 ++ e :: es2) = Some e.
Proof.
  intros He Hne. induction es1 as [|a es1 IH]; simpl.
  - rewrite latest_None by done. by rewrite decide_True.
  - by rewrite IH.
Qed.

(** X8. Last write wins in the order of the batch: when the store
    answers, an entry that passes the checks, and that no later entry of
    the batch passing the checks shares its [record_id] with, is the
    document stored under that id after the push, whatever came before it
    in the batch or was stored before. *)
Theorem Push_last_write_wins (d : FirestoreDB) (user : User)
    (query : string → string) (es1 es2 : list Entry) (e : Entry) :
  outcomes d = [] → write_authorized user e →
  (∀ x, x ∈ es2 → write_authorized user x → RecordID x ≠ RecordID e) →
  entries
    (Push d (request "POST" user query
               {| Entries := es1 ++ e :: es2 |})).1
    !! RecordID e
  = Some e.
Proof.
  intros Hd Hok Hlater. rewrite Push_request.
  rewrite pushLoop_healthy by done. simpl.
  rewrite persist_all_lookup, filter_app, filter_cons, decide_True by done.
  rewrite latest_last; [done | done |].
  intros x [Hx Hauth]%list_elem_of_filter. by apply Hlater.
Qed.

Lemma Push_last_write_wins_witness :
  entries
    (Push empty_db
       (request "POST" op_east no_query
          {| Entries := [entry_E1] ++ entry_E1_older :: [entry_E2] |})).1
    !! "E1"
  = Some entry_E1_older.
Proof.
  apply (Push_last_write_wins empty_db op_east no_query [entry_E1]
           [entry_E2] entry_E1_older).
  - reflexivity.
  - split; [reflexivity |]. intros _. left.
  - intros x Hx _. apply list_elem_of_singleton in Hx as ->. discriminate.
Defined.

Lemma pushLoop_all_rejected user es d accepted rejected rejectedIDs :
  (∀ e, e ∈ es → ¬ write_authorized user e) →
  pushLoop user es d accepted rejected rejectedIDs
  = (d, (accepted, rejected + Z.of_nat (length es),
         rejectedIDs ++ (RecordID <$> es))).
Proof.
  revert rejected rejectedIDs.
  induction es as [|e es IH]; intros rejected rejectedIDs Hno.
  - simpl. by rewrite Z.add_0_r, app_nil_r.
  - rewrite pushLoop_rejected by (apply Hno; by left).
    rewrite IH by (intros x Hx; apply Hno; by right).
    rewrite <- app_assoc. simpl length. do 2 f_equal. f_equal. lia.
Qed.

(** X9. For a gate operator an empty [allowed_checkpoints] allows no
    checkpoint: every entry of the batch is rejected, in order, and the
    store is not called. *)
Theorem Push_gate_operator_without_checkpoints (d : FirestoreDB)
    (user : User) (query : string → string) (es : list Entry) :
  Role user = RoleGateOperator → AllowedCheckpoints user = [] →
  Push d (request "POST" user query {| Entries := es |})
  = (d, OK {| Success := bool_decide (es = []);
              Accepted := 0;
              Rejected := Z.of_nat (length es);
              RejectedIDs := RecordID <$> es;
              Message := "Sync completed" |}).
Proof.
  intros Hrole Hnone. rewrite Push_request.
  rewrite pushLoop_all_rejected.
  - simpl. do 2 f_equal. f_equal. apply bool_decide_ext.
    destruct es; simpl; split; try done; lia.
  - intros e _ [_ Hcp]. specialize (Hcp Hrole). rewrite Hnone in Hcp.
    by apply elem_of_nil in Hcp.
Qed.

Lemma Push_gate_operator_without_checkpoints_witness :
  Push empty_db
    (request "POST"
       {| UserID := "user-op-east"; Username := "op_east";
          Role := RoleGateOperator; AllowedCheckpoints := [];
          SupervisorID := ""; ManagedOperators := []; LastLogin := 0 |}
       no_query {| Entries := [entry_E1] |})
  = (empty_db,
     OK {| Success := false; Accepted := 0; Rejected := 1;
           RejectedIDs := ["E1"]; Message := "Sync completed" |}).
Proof.
  apply (Push_gate_operator_without_checkpoints empty_db
           {| UserID := "user-op-east"; Username := "op_east";
              Role := RoleGateOperator; AllowedCheckpoints := [];
              SupervisorID := ""; ManagedOperators := []; LastLogin := 0 |}
           no_query [entry_E1]); reflexivity.
Defined.

(** ** Sync pull and the entry listings *)

Lemma call_advance d : call d = ((call d).1, advance d).
Proof. unfold advance. by destruct (call d). Qed.

Lemma GetAllEntries_cases d :
  GetAllEntries d = (advance d, inl (Documents (entries d)))
  ∨ GetAllEntries d = (advance d, inr (failed "failed to iterate entries")).
Proof.
  unfold GetAllEntries. rewrite call_advance.
  destruct (call d).1; [left | right]; by rewrite ?advance_entries.
Qed.

Lemma GetEntriesSince_cases d since :
  GetEntriesSince d since
  = (advance d, inl (filter (λ entry, since < CreatedAt entry)
                       (Documents (entries d))))
  ∨ GetEntriesSince d since
    = (advance d, inr (failed "failed to iterate entries")).
Proof.
  unfold GetEntriesSince. rewrite call_advance.
  destruct (call d).1; [left | right]; by rewrite ?advance_entries.
Qed.

(** X10. [Pull] only reads: whatever the request and whatever the store
    answers, the three collections are the same after as before.  Every
    entry it returns is a stored document that the role table makes
    visible to the requester, with or without [since], and [count] is the
    number of entries returned. *)
Theorem Pull_reads_only_visible `{Externals} (d : FirestoreDB)
    (r : Request unit) :
  entries (Pull d r).1 = entries d
  ∧ users (Pull d r).1 = users d
  ∧ passwords (Pull d r).1 = passwords d
  ∧ ∀ resp, (Pull d r).2 = OK resp →
      Count resp = Z.of_nat (length (PullEntries resp))
      ∧ ∀ e, e ∈ PullEntries resp →
          (∃ k, entries d !! k = Some e)
          ∧ ∃ user, ContextUser r = Some user ∧ visible user e.
Proof.
  unfold Pull.
  destruct (decide (Method r ≠ "GET")); [by auto |].
  destruct (ContextUser r) as [user|]; [| by auto].
  assert (Hsound : ∀ es e,
            (∀ x, x ∈ es → x ∈ Documents (entries d)) →
            e ∈ filterEntriesByRole es user →
            (∃ k, entries d !! k = Some e)
            ∧ ∃ user0, Some user = Some user0 ∧ visible user0 e).
  { intros es e Hsub [Hin Hv]%filterEntriesByRole_visible. split.
    - by apply elem_of_Documents, Hsub.
    - by exists user. }
  destruct (decide (Query r "since" ≠ "")).
  - destruct (time_Parse_RFC3339 (Query r "since")) as [sinceTime|];
      [| by auto].
    destruct (GetEntriesSince_cases d sinceTime) as [-> | ->];
      cbn [fst snd];
      rewrite advance_entries, advance_users, advance_passwords;
      (split; [done |]; split; [done |]; split; [done |]);
      [| by intros resp [=]].
    intros resp [= <-]. simpl. split; [done |].
    intros e. apply Hsound. by intros x [_ ?]%list_elem_of_filter.
  - destruct (GetAllEntries_cases d) as [-> | ->];
      cbn [fst snd];
      rewrite advance_entries, advance_users, advance_passwords;
      (split; [done |]; split; [done |]; split; [done |]);
      [| by intros resp [=]].
    intros resp [= <-]. simpl. split; [done |].
    intros e. by apply Hsound.
Qed.



(** X12. The supervisor's entry listing and a pull without [since] are
    the same operation: for every request whose [since] parameter is
    empty they make the same store call and give the same answer. *)
Theorem GetEntries_is_Pull_without_since `{Externals} (d : FirestoreDB)
    (r : Request unit) :
  Query r "since" = "" → listing.GetEntries d r = Pull d r.
Proof.
  intros Hq. unfold listing.GetEntries, Pull.
  destruct (decide (Method r ≠ "GET")); [done |].
  destruct (ContextUser r) as [user|]; [| done].
  rewrite decide_False by (intros Hc; by apply Hc). done.
Qed.

Lemma GetEntries_is_Pull_without_since_witness :
  listing.GetEntries two_authors_db (request "GET" sup_john no_query ())
  = (two_authors_db, OK {| PullEntries := [entry_E1]; Count := 1 |}).
Proof.
  rewrite (@GetEntries_is_Pull_without_since sample_externals
             two_authors_db (request "GET" sup_john no_query ()) eq_refl).
  vm_compute. reflexivity.
Defined.

(** X13. For a gate operator a pull without [since] is the query
    [GetEntriesByUser] on the operator's own id: the same store call, the
    same entries in the same order, and status 500 exactly when the query
    fails. *)
Theorem Pull_gate_operator_is_GetEntriesByUser `{Externals}
    (d : FirestoreDB) (user : User) (query : string → string) :
  Role user = RoleGateOperator → query "since" = "" →
  Pull d (request "GET" user query ())
  = match queries.GetEntriesByUser d (UserID user) with
    | (d', inl es) =>
        (d', OK {| PullEntries := es; Count := Z.of_nat (length es) |})
    | (d', inr _) =>
        (d', Error "Failed to retrieve entries" StatusInternalServerError)
    end.
Proof.
  intros Hrole Hq. unfold Pull, request. simpl.
  rewrite decide_False by (intros Hc; by apply Hc).
  unfold GetAllEntries, queries.GetEntriesByUser.
  destruct (call d) as [[] d']; [| done].
  rewrite filterEntriesByRole_visible_entries. unfold visible_entries.
  rewrite decide_False by (rewrite Hrole; discriminate).
  rewrite decide_False by (rewrite Hrole; discriminate).
  by rewrite decide_True.
Qed.

Lemma Pull_gate_operator_is_GetEntriesByUser_witness :
  @Pull sample_externals two_authors_db (request "GET" op_east no_query ())
  = (two_authors_db, OK {| PullEntries := [entry_E1]; Count := 1 |}).
Proof.
  rewrite (@Pull_gate_operator_is_GetEntriesByUser sample_externals
             two_authors_db op_east no_query eq_refl eq_refl).
  vm_compute. reflexivity.
Defined.

(** ** The admin handlers, whatever the store answers *)

Lemma GetUser_cases d userID :
  (∃ user, users d !! userID = Some user
           ∧ GetUser d userID = (advance d, inl user))
  ∨ ∃ err, GetUser d userID = (advance d, inr err).
Proof.
  unfold GetUser. rewrite call_advance.
  destruct (call d).1; [| by eauto].
  rewrite advance_users. destruct (users d !! userID); eauto.
Qed.

Lemma UpdateUser_cases d user :
  db.UpdateUser d user
  = (with_users (advance d) (<[UserID user := user]> (users d)), nil)
  ∨ db.UpdateUser d user = (advance d, failed "failed to update user").
Proof.
  unfold db.UpdateUser. rewrite call_advance.
  destruct (call d).1; [left | right]; by rewrite ?advance_users.
Qed.

Lemma DeleteUser_cases d userID :
  db.DeleteUser d userID
  = (with_users (advance d) (delete userID (users d)), nil)
  ∨ db.DeleteUser d userID = (advance d, failed "failed to delete user").
Proof.
  unfold db.DeleteUser. rewrite call_advance.
  destruct (call d).1; [left | right]; by rewrite ?advance_users.
Qed.

(** What the two repair steps can do: nothing, or rewrite the document
    that they read, under the id that the document carries. *)
Lemma removeManaged_cases d S x :
  entries (removeManaged d S x) = entries d
  ∧ passwords (removeManaged d S x) = passwords d
  ∧ (users (removeManaged d S x) = users d
     ∨ ∃ s, users d !! S = Some s
            ∧ users (removeManaged d S x)
              = <[UserID s :=
                    with_ManagedOperators s
                      (filter (λ opID, opID ≠ x) (ManagedOperators s))]>
                  (users d)).
Proof.
  unfold removeManaged.
  destruct (GetUser_cases d S) as [(s & Hs & ->) | (err & ->)].
  - destruct (UpdateUser_cases (advance d)
                (with_ManagedOperators s
                   (rangeWithout (ManagedOperators s) x [])))
      as [-> | ->]; simpl;
      rewrite ?advance_entries, ?advance_passwords, ?advance_users;
      (split; [done |]; split; [done |]).
    + right. exists s. split; [done |]. by rewrite rangeWithout_filter.
    + by left.
  - rewrite advance_entries, advance_passwords, advance_users. auto.
Qed.

Lemma addManaged_cases d S x :
  entries (addManaged d S x) = entries d
  ∧ passwords (addManaged d S x) = passwords d
  ∧ (users (addManaged d S x) = users d
     ∨ ∃ s, users d !! S = Some s
            ∧ users (addManaged d S x)
              = <[UserID s :=
                    with_ManagedOperators s (ManagedOperators s ++ [x])]>
                  (users d)).
Proof.
  unfold addManaged.
  destruct (GetUser_cases d S) as [(s & Hs & ->) | (err & ->)].
  - destruct (rangeFinds (ManagedOperators s) x).
    { rewrite advance_entries, advance_passwords, advance_users. auto. }
    destruct (UpdateUser_cases (advance d)
                (with_ManagedOperators s (ManagedOperators s ++ [x])))
      as [-> | ->]; simpl;
      rewrite ?advance_entries, ?advance_passwords, ?advance_users;
      (split; [done |]; split; [done |]).
    + right. by exists s.
    + by left.
  - rewrite advance_entries, advance_passwords, advance_users. auto.
Qed.

Lemma repair_keeps_ids (m m' : gmap string User) S k :
  (m' = m ∨ ∃ s u', m !! S = Some s ∧ m' = <[UserID s := u']> m) →
  is_Some (m !! k) → is_Some (m' !! k).
Proof.
  intros [-> | (s & u' & _ & ->)] Hk; [done |].
  rewrite lookup_insert_is_Some. destruct (decide (UserID s = k)); auto.
Qed.

(** X14. Nobody deletes their own account: a delete request that names
    the requester's own id is answered with status 400 before any store
    call, and after any delete request, whatever the store answers, the
    requester's user document is still in the collection. *)
Theorem DeleteUser_spares_requester (d : FirestoreDB)
    (r : Request DeleteUserRequest) (requester : User) :
  ContextUser r = Some requester →
  is_Some (users d !! UserID requester) →
  is_Some (users (DeleteUser d r).1 !! UserID requester)
  ∧ ∀ req, Method r = "DELETE" → Body r = Some req →
           delUserID req = UserID requester →
           ∃ message, DeleteUser d r = (d, Error message StatusBadRequest).
Proof.
  intros Hctx Hself. split.
  - unfold DeleteUser.
    destruct (decide (Method r ≠ "DELETE")); [done |].
    rewrite Hctx.
    destruct (Body r) as [req|]; [| done].
    destruct (decide (delUserID req = "")); [done |].
    destruct (decide (delUserID req = UserID requester)); [done |].
    destruct (GetUser_cases d (delUserID req))
      as [(u & Hu & ->) | (err & ->)];
      [| simpl; by rewrite advance_users].
    cbv zeta.
    set (d1 := if decide (SupervisorID u ≠ "") then _ else advance d).
    assert (Hd1 : is_Some (users d1 !! UserID requester)).
    { subst d1. destruct (decide (SupervisorID u ≠ "")).
      - destruct (removeManaged_cases (advance d) (SupervisorID u)
                    (delUserID req)) as (_ & _ & Hcase).
        rewrite advance_users in Hcase.
        eapply (repair_keeps_ids (users d)); [| done].
        destruct Hcase as [? | (s & ? & ?)]; eauto.
      - by rewrite advance_users. }
    destruct (DeleteUser_cases d1 (delUserID req)) as [-> | ->]; simpl.
    + rewrite lookup_delete_ne by done. done.
    + by rewrite advance_users.
  - intros req Hm Hreq Hid. unfold DeleteUser.
    rewrite decide_False by (intros Hc; by apply Hc).
    rewrite Hctx, Hreq.
    destruct (decide (delUserID req = "")); [by eexists |].
    rewrite decide_True by done. by eexists.
Qed.

Lemma DeleteUser_spares_requester_witness :
  is_Some
    (users (DeleteUser seeded_db
              (request "DELETE" sample_admin no_query
                 {| delUserID := "user-admin" |})).1
       !! "user-admin").
Proof.
  apply (DeleteUser_spares_requester seeded_db
           (request "DELETE" sample_admin no_query
              {| delUserID := "user-admin" |}) sample_admin).
  - reflexivity.
  - exists sample_admin. reflexivity.
Defined.

(** X15. [DeleteUser] writes to the users collection alone: whatever the
    request and whatever the store answers, the entries and the password
    documents, those of the deleted user included, are as they were. *)
Theorem DeleteUser_keeps_entries_and_passwords (d : FirestoreDB)
    (r : Request DeleteUserRequest) :
  entries (DeleteUser d r).1 = entries d
  ∧ passwords (DeleteUser d r).1 = passwords d.
Proof.
  unfold DeleteUser.
  destruct (decide (Method r ≠ "DELETE")); [done |].
  destruct (ContextUser r) as [adminUser|]; [| done].
  destruct (Body r) as [req|]; [| done].
  destruct (decide (delUserID req = "")); [done |].
  destruct (decide (delUserID req = UserID adminUser)); [done |].
  destruct (GetUser_cases d (delUserID req))
    as [(u & Hu & ->) | (err & ->)];
    [| simpl; by rewrite advance_entries, advance_passwords].
  cbv zeta.
  set (d1 := if decide (SupervisorID u ≠ "") then _ else advance d).
  assert (Hd1 : entries d1 = entries d ∧ passwords d1 = passwords d).
  { subst d1. destruct (decide (SupervisorID u ≠ "")).
    - destruct (removeManaged_cases (advance d) (SupervisorID u)
                  (delUserID req)) as (-> & -> & _).
      by rewrite advance_entries, advance_passwords.
    - by rewrite advance_entries, advance_passwords. }
  destruct Hd1 as [He Hp].
  destruct (DeleteUser_cases d1 (delUserID req)) as [-> | ->]; simpl;
    by rewrite ?advance_entries, ?advance_passwords.
Qed.

Lemma same_identities_refl m : same_identities m m.
Proof. intros k. by destruct (m !! k). Qed.

Lemma same_identities_trans m1 m2 m3 :
  same_identities m1 m2 → same_identities m2 m3 → same_identities m1 m3.
Proof.
  intros H12 H23 k. specialize (H12 k). specialize (H23 k).
  destruct (m1 !! k), (m2 !! k), (m3 !! k); try done.
  destruct H12, H23. split; congruence.
Qed.

Lemma same_identities_insert m k u u' :
  m !! k = Some u → UserID u' = UserID u → Username u' = Username u →
  same_identities m (<[k := u']> m).
Proof.
  intros Hk Hid Hname k'. destruct (decide (k = k')) as [<-|Hne].
  - by rewrite lookup_insert_eq, Hk.
  - rewrite lookup_insert_ne by done. by destruct (m !! k').
Qed.

Lemma same_identities_wf m m' :
  same_identities m m' → users_wf m → users_wf m'.
Proof.
  intros Hsame [Hempty Hkey]. split.
  - specialize (Hsame ""). rewrite Hempty in Hsame.
    by destruct (m' !! "").
  - intros k u' Hk. specialize (Hsame k). rewrite Hk in Hsame.
    destruct (m !! k) as [u|] eqn:Hu; [| done].
    destruct Hsame as [-> _]. by apply Hkey.
Qed.

Lemma same_identities_repair (m m' : gmap string User) S :
  users_wf m →
  (m' = m
   ∨ ∃ s, m !! S = Some s
          ∧ ∃ l, m' = <[UserID s := with_ManagedOperators s l]> m) →
  same_identities m m'.
Proof.
  intros Hwf [-> | (s & Hs & l & ->)]; [apply same_identities_refl |].
  destruct (wf_key _ Hwf _ _ Hs) as [Hid _]. rewrite Hid.
  by eapply same_identities_insert.
Qed.

(** X16. [UpdateUser] rewrites documents in place: whatever the request
    and whatever the store answers, the users collection has the same ids
    afterwards as before, every document keeps its [user_id] and its
    [username], and the entries and the passwords are as they were.
    (Documents are stored under their own [user_id], as the handlers
    store them.) *)
Theorem UpdateUser_keeps_identities (d : FirestoreDB)
    (r : Request UpdateUserRequest) :
  users_wf (users d) →
  same_identities (users d) (users (UpdateUser d r).1)
  ∧ entries (UpdateUser d r).1 = entries d
  ∧ passwords (UpdateUser d r).1 = passwords d.
Proof.
  intros Hwf. unfold UpdateUser.
  pose proof (same_identities_refl (users d)) as Hrefl.
  destruct (decide (Method r ≠ "PUT")); [done |].
  destruct (ContextUser r) as [adminUser|]; [| done].
  destruct (Body r) as [req|]; [| done].
  destruct (decide (updUserID req = "")); [done |].
  destruct (GetUser_cases d (updUserID req))
    as [(u & Hu & ->) | (err & ->)];
    [| simpl; by rewrite advance_users, advance_entries,
                advance_passwords].
  cbv zeta. fold (updated u req).
  destruct (wf_key _ Hwf _ _ Hu) as [Hid _].
  destruct (UpdateUser_cases (advance d) (updated u req)) as [-> | ->];
    [| simpl; by rewrite !advance_users, !advance_entries,
                !advance_passwords].
  rewrite advance_users.
  change (UserID (updated u req)) with (UserID u). rewrite Hid.
  set (d1 := with_users (advance (advance d)) _).
  assert (H1 : same_identities (users d) (users d1)).
  { by eapply same_identities_insert. }
  assert (He1 : entries d1 = entries d ∧ passwords d1 = passwords d).
  { subst d1. simpl. by rewrite !advance_entries, !advance_passwords. }
  destruct (decide (SupervisorID u ≠ updSupervisorID req)); [| done].
  cbn [fst].
  set (d2 := if decide (SupervisorID u ≠ "") then _ else d1).
  assert (H2 : same_identities (users d) (users d2)
               ∧ entries d2 = entries d ∧ passwords d2 = passwords d).
  { subst d2. destruct (decide (SupervisorID u ≠ "")); [| done].
    destruct (removeManaged_cases d1 (SupervisorID u) (updUserID req))
      as (-> & -> & Hcase).
    split; [| done]. eapply same_identities_trans; [exact H1 |].
    eapply same_identities_repair;
      [by eapply same_identities_wf |].
    destruct Hcase as [?|(s & ? & ?)]; eauto. }
  destruct H2 as (H2 & He2 & Hp2).
  destruct (decide (updSupervisorID req ≠ "")); [| done].
  destruct (addManaged_cases d2 (updSupervisorID req) (updUserID req))
    as (-> & -> & Hcase).
  split; [| done]. eapply same_identities_trans; [exact H2 |].
  eapply same_identities_repair; [by eapply same_identities_wf |].
  destruct Hcase as [?|(s & ? & ?)]; eauto.
Qed.

Lemma UpdateUser_keeps_identities_witness :
  same_identities (users seeded_db)
    (users (UpdateUser seeded_db
              (request "PUT" sample_admin no_query
                 {| updUserID := "user-op-east"; updRole := "";
                    updAllowedCheckpoints := Some ["CP-NORTH-01"];
                    updSupervisorID := "" |})).1).
Proof.
  apply (UpdateUser_keeps_identities seeded_db
           (request "PUT" sample_admin no_query
              {| updUserID := "user-op-east"; updRole := "";
                 updAllowedCheckpoints := Some ["CP-NORTH-01"];
                 updSupervisorID := "" |})).
  apply seeded_linked.
Defined.

Lemma link_adds m S x s :
  users_wf m → m !! S = Some s →
  ∃ s', link m S x !! S = Some s' ∧ x ∈ ManagedOperators s'.
Proof.
  intros Hwf Hs. unfold link. rewrite Hs.
  destruct (rangeFinds (ManagedOperators s) x) eqn:Hfind.
  - exists s. split; [done |]. by apply rangeFinds_elem_of.
  - destruct (wf_key _ Hwf _ _ Hs) as [-> _]. rewrite lookup_insert_eq.
    eexists. split; [done |]. simpl. apply elem_of_app. right.
    by apply list_elem_of_singleton.
Qed.

Lemma UpdateUser_request_healthy d requester query req u :
  outcomes d = [] → users_wf (users d) →
  users d !! updUserID req = Some u →
  ∃ d',
    UpdateUser d (request "PUT" requester query req)
    = (d', OK (updated u req))
    ∧ users d'
      = let m1 := <[updUserID req := updated u req]> (users d) in
        if decide (SupervisorID u ≠ updSupervisorID req)
        then link (unlink m1 (SupervisorID u) (updUserID req))
               (updSupervisorID req) (updUserID req)
        else m1.
Proof.
  intros Hd Hwf Hu.
  destruct (wf_key _ Hwf _ _ Hu) as [Hid Hne].
  unfold UpdateUser, request. simpl.
  rewrite decide_False by done.
  rewrite GetUser_healthy, Hu by done.
  rewrite UpdateUser_healthy by done.
  change (UserID {| UserID := UserID u |}) with (UserID u).
  fold (updated u req). cbv zeta. simpl UserID. rewrite Hid.
  set (d1 := with_users d _).
  assert (Hd1 : outcomes d1 = []) by done.
  assert (Hwf1 : users_wf (users d1)).
  { simpl. apply users_wf_insert; done. }
  eexists. split; [reflexivity |].
  destruct (decide (SupervisorID u ≠ updSupervisorID req)); [| done].
  set (d2 := if decide (SupervisorID u ≠ "") then _ else d1).
  assert (Hd2 : users d2 = unlink (users d1) (SupervisorID u)
                             (updUserID req)
                ∧ outcomes d2 = []).
  { subst d2. destruct (decide (SupervisorID u ≠ "")) as [|He].
    - by apply removeManaged_healthy.
    - apply dec_stable in He. rewrite He.
      by rewrite unlink_no_supervisor. }
  destruct Hd2 as [Hu2 Ho2].
  destruct (decide (updSupervisorID req ≠ "")) as [|He].
  - destruct (addManaged_healthy d2 (updSupervisorID req)
                (updUserID req) Ho2) as [-> _].
    by rewrite Hu2.
  - apply dec_stable in He. rewrite He, link_no_supervisor.
    + done.
    + apply users_wf_unlink. done.
Qed.

(** X17. Moving a user to another supervisor: when the store answers, an
    update that names a [supervisor_id] other than the user's present one
    is answered with the updated user; afterwards the user carries the new
    [supervisor_id], the new supervisor (if there is such a user) lists the
    user among its [managed_operators], and the old supervisor does
    not. *)
Theorem UpdateUser_moves_to_new_supervisor (d : FirestoreDB)
    (requester : User) (query : string → string)
    (req : UpdateUserRequest) (u : User) :
  outcomes d = [] → users_wf (users d) →
  users d !! updUserID req = Some u →
  updSupervisorID req ≠ "" →
  SupervisorID u ≠ updSupervisorID req →
  ∃ d',
    UpdateUser d (request "PUT" requester query req)
    = (d', OK (updated u req))
    ∧ (∃ u', users d' !! updUserID req = Some u'
             ∧ SupervisorID u' = updSupervisorID req)
    ∧ (∀ s, users d !! updSupervisorID req = Some s →
         ∃ s', users d' !! updSupervisorID req = Some s'
               ∧ updUserID req ∈ ManagedOperators s')
    ∧ (∀ s', users d' !! SupervisorID u = Some s' →
         updUserID req ∉ ManagedOperators s').
Proof.
  intros Hd Hwf Hu Hnew Hchg.
  destruct (wf_key _ Hwf _ _ Hu) as [Hid Hne].
  destruct (UpdateUser_request_healthy d requester query req u Hd Hwf Hu)
    as (d' & Hans & Husers).
  exists d'. split; [exact Hans |].
  cbv zeta in Husers. rewrite decide_True in Husers by done.
  rewrite Husers. clear Husers Hans.
  set (m1 := <[updUserID req := updated u req]> (users d)).
  assert (Hwf1 : users_wf m1) by (by apply users_wf_insert).
  set (m2 := unlink m1 (SupervisorID u) (updUserID req)).
  assert (Hwf2 : users_wf m2) by (by apply users_wf_unlink).
  split; [| split].
  - assert (Hx1 : m1 !! updUserID req = Some (updated u req))
      by apply lookup_insert_eq.
    destruct (unlink_keeps m1 Hwf1 (SupervisorID u) (updUserID req)
                _ _ Hx1) as (o & Ho & Hsup & _).
    destruct (link_keeps m2 Hwf2 (updSupervisorID req) (updUserID req)
                _ _ Ho) as (o' & Ho' & Hsup' & _).
    exists o'. split; [done |]. rewrite Hsup', Hsup. simpl.
    by rewrite decide_True.
  - intros s Hs.
    assert (∃ s1, m1 !! updSupervisorID req = Some s1) as [s1 Hs1].
    { subst m1. destruct (decide (updUserID req = updSupervisorID req))
        as [<-|Hother].
      - rewrite lookup_insert_eq. eauto.
      - rewrite lookup_insert_ne by done. eauto. }
    destruct (unlink_keeps m1 Hwf1 (SupervisorID u) (updUserID req)
                _ _ Hs1) as (s2 & Hs2 & _).
    by eapply link_adds.
  - intros s' Hs'.
    apply (link_lists m2 Hwf2) in Hs' as (s0 & Hs0 & [->|(Heq & _)]);
      [| done].
    apply (unlink_lists m1 Hwf1) in Hs0 as (s00 & _ & [[_ Hl]|[? _]]);
      [| done].
    rewrite Hl. intros [? _]%list_elem_of_filter. done.
Qed.

Lemma UpdateUser_moves_to_new_supervisor_witness :
  ∃ d',
    UpdateUser two_supervisors_db
      (request "PUT" sample_admin no_query move_to_mary)
    = (d', OK (updated op_east_managed move_to_mary))
    ∧ (∃ u', users d' !! "user-op-east" = Some u'
             ∧ SupervisorID u' = "user-supervisor-mary")
    ∧ (∀ s, users two_supervisors_db !! "user-supervisor-mary" = Some s →
         ∃ s', users d' !! "user-supervisor-mary" = Some s'
               ∧ "user-op-east" ∈ ManagedOperators s')
    ∧ (∀ s', users d' !! "user-supervisor-john" = Some s' →
         "user-op-east" ∉ ManagedOperators s').
Proof.
  apply (UpdateUser_moves_to_new_supervisor two_supervisors_db
           sample_admin no_query move_to_mary op_east_managed).
  - reflexivity.
  - split; [reflexivity |]. intros k u Hk. simpl in Hk.
    repeat (apply lookup_insert_Some in Hk as [[<- <-]|[_ Hk]];
            [reflexivity |]).
    apply lookup_singleton_Some in Hk as [<- <-]. reflexivity.
  - reflexivity.
  - discriminate.
  - discriminate.
Defined.

(** ** Creating a user *)

Lemma GetUserByUsername_taken d username :
  outcomes d = [] →
  (∃ k u, users d !! k = Some u ∧ Username u = username) →
  ∃ existing, GetUserByUsername d username = (d, inl existing).
Proof.
  intros Hd (k & u & Hk & Hname). unfold GetUserByUsername.
  rewrite call_healthy by done.
  destruct (filter _ _) as [|x l] eqn:Hf; [| eauto].
  assert (u ∈ filter (λ user, Username user = username)
                (Documents (users d))) as Hin.
  { apply list_elem_of_filter. split; [done |].
    apply elem_of_Documents. eauto. }
  rewrite Hf in Hin. by apply elem_of_nil in Hin.
Qed.

Lemma GetUserByUsername_free d username :
  outcomes d = [] →
  (∀ k u, users d !! k = Some u → Username u ≠ username) →
  GetUserByUsername d username = (d, inr (failed "user not found")).
Proof.
  intros Hd Hfree. unfold GetUserByUsername.
  rewrite call_healthy by done.
  destruct (filter _ _) as [|x l] eqn:Hf; [done |].
  assert (x ∈ filter (λ user, Username user = username)
                (Documents (users d))) as Hin.
  { rewrite Hf. left. }
  apply list_elem_of_filter in Hin as [Hname Hin].
  apply elem_of_Documents in Hin as [k Hk]. by destruct (Hfree k x Hk).
Qed.

Lemma meets_policy_not_empty password :
  auth.meets_policy password → password ≠ "".
Proof. intros [Hlen _] ->. vm_compute in Hlen. by apply Hlen. Qed.

(** X18. [CreateUser] writes nothing when it refuses: a password outside
    the policy is answered with status 400 before any store call, and,
    when the store answers, a username that some stored user already has
    is answered with status 409 and leaves the store as it was. *)
Theorem CreateUser_refuses_without_writing `{Externals}
    (d : FirestoreDB) (now nowStored : Time) (requester : User)
    (query : string → string) (req : CreateUserRequest) :
  (¬ auth.meets_policy (newPassword req) →
   ∃ message,
     CreateUser d now nowStored (request "POST" requester query req)
     = (d, Error message StatusBadRequest))
  ∧ (outcomes d = [] → newUsername req ≠ "" →
     auth.meets_policy (newPassword req) →
     (∃ k u, users d !! k = Some u ∧ Username u = newUsername req) →
     CreateUser d now nowStored (request "POST" requester query req)
     = (d, Error "Username already exists" StatusConflict)).
Proof.
  unfold CreateUser, request. simpl. split.
  - intros Hweak. rewrite <- ValidatePasswordStrength_None in Hweak.
    destruct (decide (newUsername req = "" ∨ newPassword req = ""));
      [by eexists |].
    destruct (auth.ValidatePasswordStrength (newPassword req));
      [by eexists | done].
  - intros Hd Hname Hpolicy Htaken.
    pose proof (meets_policy_not_empty _ Hpolicy) as Hpw.
    apply ValidatePasswordStrength_None in Hpolicy.
    rewrite decide_False by (by intros [?|?]). rewrite Hpolicy.
    by destruct (GetUserByUsername_taken d _ Hd Htaken) as [existing ->].
Qed.

Lemma CreateUser_refuses_without_writing_witness :
  @CreateUser sample_externals seeded_db 7 8
    (request "POST" sample_admin no_query
       {| newUsername := "op_east"; newPassword := "passw0rd1";
          newRole := RoleGateOperator; newAllowedCheckpoints := [];
          newSupervisorID := "" |})
  = (seeded_db, Error "Username already exists" StatusConflict).
Proof.
  destruct (@CreateUser_refuses_without_writing sample_externals seeded_db
              7 8 sample_admin no_query
              {| newUsername := "op_east"; newPassword := "passw0rd1";
                 newRole := RoleGateOperator; newAllowedCheckpoints := [];
                 newSupervisorID := "" |}) as [_ Htaken].
  apply Htaken.
  - reflexivity.
  - discriminate.
  - apply ValidatePasswordStrength_None. reflexivity.
  - exists "user-op-east", op_east_managed. split; reflexivity.
Defined.

(** X19. A create that goes through: when the store answers, the
    username is free, the password is within the policy and bcrypt gives
    a digest, the answer is the new user, with id ["user-"] followed by the
    username and an empty [managed_operators]; the user document is stored
    under that id; the digest is stored under the same id and
    [GetPasswordHash] returns it; a gate operator created with a
    [supervisor_id] is added to that supervisor's list; the entries are
    untouched. *)
Theorem CreateUser_stores_user_and_password `{Externals}
    (d : FirestoreDB) (now nowStored : Time) (requester : User)
    (query : string → string) (req : CreateUserRequest) (digest : string) :
  outcomes d = [] → newUsername req ≠ "" →
  auth.meets_policy (newPassword req) →
  (∀ k u, users d !! k = Some u → Username u ≠ newUsername req) →
  bcrypt_GenerateFromPassword (newPassword req) auth.BcryptCost
  = Some digest →
  let userID := "user-" +:+ newUsername req in
  ∃ d',
    CreateUser d now nowStored (request "POST" requester query req)
    = (d', OK (created now req))
    ∧ entries d' = entries d
    ∧ passwords d'
      = <[userID := {| user_id := userID; password_hash := digest;
                       updated_at := nowStored |}]> (passwords d)
    ∧ users d'
      = (if decide (newRole req = RoleGateOperator
                    ∧ newSupervisorID req ≠ "")
         then link (<[userID := created now req]> (users d))
                (newSupervisorID req) userID
         else <[userID := created now req]> (users d))
    ∧ GetPasswordHash d' userID = (d', inl digest).
Proof.
  intros Hd Hname Hpolicy Hfree Hdigest userID. subst userID.
  pose proof (meets_policy_not_empty _ Hpolicy) as Hpw.
  pose proof (proj2 (HashPassword_digest (newPassword req) digest)
                (conj (proj1 Hpolicy) Hdigest)) as Hhash.
  apply ValidatePasswordStrength_None in Hpolicy.
  unfold CreateUser, request. simpl.
  rewrite decide_False by (by intros [?|?]). rewrite Hpolicy.
  rewrite GetUserByUsername_free by done.
  fold (created now req). rewrite CreateUser_healthy by done.
  rewrite Hhash, StorePasswordHash_healthy by done.
  change (UserID (created now req)) with ("user-" +:+ newUsername req).
  set (d1 := with_passwords _ _).
  assert (Hd1 : outcomes d1 = []) by done.
  destruct (decide (newRole req = RoleGateOperator
                    ∧ newSupervisorID req ≠ "")).
  - destruct (addManaged_cases d1 (newSupervisorID req)
                ("user-" +:+ newUsername req)) as (He & Hp & _).
    destruct (addManaged_healthy d1 (newSupervisorID req)
                ("user-" +:+ newUsername req) Hd1) as [Hu Ho].
    eexists. split; [reflexivity |]. rewrite He, Hp, Hu.
    split; [done |]. split; [done |]. split; [done |].
    unfold GetPasswordHash. rewrite call_healthy by done.
    rewrite Hp. subst d1. simpl. by rewrite lookup_insert_eq.
  - eexists. split; [reflexivity |].
    split; [done |]. split; [done |]. split; [done |].
    unfold GetPasswordHash. rewrite call_healthy by done.
    subst d1. simpl. by rewrite lookup_insert_eq.
Qed.

Lemma CreateUser_stores_user_and_password_witness :
  ∃ d',
    @CreateUser sample_externals seeded_db 7 8
      (request "POST" sample_admin no_query new_operator)
    = (d', OK (created 7 new_operator))
    ∧ GetPasswordHash d' "user-op_north" = (d', inl "$2a$14$passw0rd1").
Proof.
  destruct (@CreateUser_stores_user_and_password sample_externals
              seeded_db 7 8 sample_admin no_query new_operator
              "$2a$14$passw0rd1")
    as (d' & Hans & _ & _ & _ & Hget).
  - reflexivity.
  - discriminate.
  - apply ValidatePasswordStrength_None. reflexivity.
  - intros k u Hk. simpl in Hk.
    repeat (apply lookup_insert_Some in Hk as [[<- <-]|[_ Hk]];
            [discriminate |]).
    apply lookup_singleton_Some in Hk as [<- <-]. discriminate.
  - reflexivity.
  - exists d'. split; [exact Hans | exact Hget].
Defined.



(** ** The guards of the routes *)

Lemma rangeFinds_admin role :
  rangeFinds ["ADMIN"] role = true ↔ role = RoleAdmin.
Proof.
  rewrite rangeFinds_elem_of, list_elem_of_singleton. done.
Qed.

(** X21. The three admin routes that write users let nobody but an Admin
    through: for a request whose context user is not an Admin (or is
    missing), create, update and delete answer with status 403 (or 401),
    make no store call and leave the store as it was. *)
Theorem admin_routes_refuse_other_roles `{Externals} (d : FirestoreDB)
    (now nowStored : Time) (r1 : Request CreateUserRequest)
    (r2 : Request UpdateUserRequest) (r3 : Request DeleteUserRequest) :
  (∀ user, ContextUser r1 = Some user → Role user ≠ RoleAdmin) →
  (∀ user, ContextUser r2 = Some user → Role user ≠ RoleAdmin) →
  (∀ user, ContextUser r3 = Some user → Role user ≠ RoleAdmin) →
  (∃ message code,
     routes.admin_users_create now nowStored d r1
     = (d, Error message code)
     ∧ (code = StatusForbidden ∨ code = StatusUnauthorized))
  ∧ (∃ message code,
       routes.admin_users_update d r2 = (d, Error message code)
       ∧ (code = StatusForbidden ∨ code = StatusUnauthorized))
  ∧ (∃ message code,
       routes.admin_users_delete d r3 = (d, Error message code)
       ∧ (code = StatusForbidden ∨ code = StatusUnauthorized)).
Proof.
  intros H1 H2 H3.
  unfold routes.admin_users_create, routes.admin_users_update,
    routes.admin_users_delete, routes.adminOnly, middleware.RequireRole.
  split; [| split].
  - destruct (ContextUser r1) as [user|]; [| by eauto].
    destruct (rangeFinds ["ADMIN"] (Role user)) eqn:Hfind; [| by eauto].
    apply rangeFinds_admin in Hfind. by destruct (H1 user).
  - destruct (ContextUser r2) as [user|]; [| by eauto].
    destruct (rangeFinds ["ADMIN"] (Role user)) eqn:Hfind; [| by eauto].
    apply rangeFinds_admin in Hfind. by destruct (H2 user).
  - destruct (ContextUser r3) as [user|]; [| by eauto].
    destruct (rangeFinds ["ADMIN"] (Role user)) eqn:Hfind; [| by eauto].
    apply rangeFinds_admin in Hfind. by destruct (H3 user).
Qed.

Lemma admin_routes_refuse_other_roles_witness :
  routes.admin_users_delete seeded_db
    (request "DELETE" sup_john no_query delete_john)
  = (seeded_db, Error "Insufficient permissions" StatusForbidden).
Proof.
  destruct (@admin_routes_refuse_other_roles sample_externals seeded_db 7 8
              (request "POST" sup_john no_query new_operator)
              (request "PUT" sup_john no_query move_to_mary)
              (request "DELETE" sup_john no_query delete_john))
    as (_ & _ & message & code & Hdel & _).
  - intros user [= <-]. discriminate.
  - intros user [= <-]. discriminate.
  - intros user [= <-]. discriminate.
  - rewrite Hdel. vm_compute in Hdel. by injection Hdel as <- <-.
Defined.

Lemma StorePasswordHash_cases d now userID passwordHash :
  StorePasswordHash d now userID passwordHash
  = (with_passwords (advance d)
       (<[userID := {| user_id := userID; password_hash := passwordHash;
                       updated_at := now |}]> (passwords d)), nil)
  ∨ StorePasswordHash d now userID passwordHash
    = (advance d, failed "failed to store password hash").
Proof.
  unfold StorePasswordHash. rewrite call_advance.
  destruct (call d).1; [left | right]; by rewrite ?advance_passwords.
Qed.

(** X22. Through its route a password reset succeeds for nobody but an
    Admin or a Supervisor who lists the target: when the route answers
    with status 200, the requester is an Admin, or a Supervisor whose
    [managed_operators] holds the target id; the new password is within
    the policy; the target is a stored user; and the one change to the
    store is the target's password document, which holds the digest of
    the new password. *)
Theorem reset_route_success_is_authorized `{Externals} (d : FirestoreDB)
    (now : Time) (r : Request ResetPasswordRequest) :
  status (routes.supervisor_reset_password now d r).2 = 200 →
  ∃ user req digest,
    ContextUser r = Some user ∧ Body r = Some req
    ∧ (Role user = RoleAdmin
       ∨ (Role user = RoleSupervisor
          ∧ resetUserID req ∈ ManagedOperators user))
    ∧ auth.meets_policy (resetNewPassword req)
    ∧ is_Some (users d !! resetUserID req)
    ∧ auth.HashPassword (resetNewPassword req) = inl digest
    ∧ passwords (routes.supervisor_reset_password now d r).1
      = <[resetUserID req :=
            {| user_id := resetUserID req; password_hash := digest;
               updated_at := now |}]> (passwords d)
    ∧ users (routes.supervisor_reset_password now d r).1 = users d
    ∧ entries (routes.supervisor_reset_password now d r).1 = entries d.
Proof.
  unfold routes.supervisor_reset_password, routes.supervisorOrAdmin,
    middleware.RequireRole.
  destruct (ContextUser r) as [user|] eqn:Hctx; [| discriminate].
  destruct (rangeFinds ["SUPERVISOR"; "ADMIN"] (Role user)) eqn:Hrole;
    [| discriminate].
  apply rangeFinds_elem_of in Hrole. simpl negb. cbv iota.
  unfold ResetPassword. rewrite Hctx.
  destruct (decide (Method r ≠ "POST")); [discriminate |].
  destruct (Body r) as [req|]; [| discriminate].
  destruct (decide (resetUserID req = "" ∨ resetNewPassword req = ""));
    [discriminate |].
  destruct (auth.ValidatePasswordStrength (resetNewPassword req))
    eqn:Hpolicy; [discriminate |].
  apply ValidatePasswordStrength_None in Hpolicy.
  destruct (GetUser_cases d (resetUserID req))
    as [(target & Htarget & ->) | (err & ->)]; [| discriminate].
  destruct (bool_decide (Role user = RoleSupervisor)
            && negb (rangeFinds (ManagedOperators user) (resetUserID req)))
    eqn:Hcheck; [discriminate |].
  destruct (auth.HashPassword (resetNewPassword req)) as [digest|]
    eqn:Hhash; [| discriminate].
  destruct (StorePasswordHash_cases (advance d) now (resetUserID req)
              digest) as [-> | ->]; [| discriminate].
  intros _. exists user, req, digest. simpl.
  rewrite !advance_passwords, !advance_users, !advance_entries.
  repeat (split; [done |]). split; [| done].
  apply elem_of_cons in Hrole as [Hsup | Hadmin].
  - right. split; [done |].
    rewrite bool_decide_eq_true_2 in Hcheck by done. simpl in Hcheck.
    apply negb_false_iff in Hcheck. by apply rangeFinds_elem_of.
  - left. by apply list_elem_of_singleton in Hadmin.
Qed.

Lemma reset_route_success_is_authorized_witness :
  ∃ user req digest,
    ContextUser (request "POST" sample_admin no_query self_reset)
    = Some user
    ∧ Body (request "POST" sample_admin no_query self_reset) = Some req
    ∧ (Role user = RoleAdmin
       ∨ (Role user = RoleSupervisor
          ∧ resetUserID req ∈ ManagedOperators user))
    ∧ auth.meets_policy (resetNewPassword req)
    ∧ is_Some (users self_managed_db !! resetUserID req)
    ∧ @auth.HashPassword sample_externals (resetNewPassword req)
      = inl digest.
Proof.
  destruct (@reset_route_success_is_authorized sample_externals
              self_managed_db 7
              (request "POST" sample_admin no_query self_reset))
    as (user & req & digest & H1 & H2 & H3 & H4 & H5 & H6 & _).
  - reflexivity.
  - exists user, req, digest.
    exact (conj H1 (conj H2 (conj H3 (conj H4 (conj H5 H6))))).
Defined.

(** ** Authentication *)



(** The token says Admin, the store says GateOperator: the supervisor's
    listing refuses the request. *)
Example scenario_stale_role_in_token :
  middleware.AuthMiddleware sample_validator routes.supervisor_entries
    seeded_db incoming_pull
  = (seeded_db, Error "Insufficient permissions" StatusForbidden).
Proof. vm_compute. reflexivity. Qed.

(** ** The list of allowed origins *)

Lemma string_app_cons c a b : String c a +:+ b = String c (a +:+ b).
Proof. reflexivity. Qed.

Lemma string_app_nil_l b : "" +:+ b = b.
Proof. reflexivity. Qed.

Ltac string_simpl :=
  repeat first [rewrite string_app_cons | rewrite string_app_nil_l];
  simpl.

Lemma string_length_app a b :
  String.length (a +:+ b) = (String.length a + String.length b)%nat.
Proof. induction a as [|c a IH]; string_simpl; [done | by rewrite IH]. Qed.

Lemma string_app_assoc a b c : (a +:+ b) +:+ c = a +:+ (b +:+ c).
Proof. induction a as [|x a IH]; string_simpl; [done | by rewrite IH]. Qed.

Lemma string_app_nil_r a : a +:+ "" = a.
Proof. induction a as [|x a IH]; string_simpl; [done | by rewrite IH]. Qed.

Lemma string_get_app_r pre s k :
  String.get (String.length pre + k) (pre +:+ s) = String.get k s.
Proof. induction pre as [|c pre IH]; string_simpl; done. Qed.

Lemma substring_app_r pre s n :
  substring (String.length pre) n (pre +:+ s) = substring 0 n s.
Proof. induction pre as [|c pre IH]; string_simpl; done. Qed.

Lemma substring_prefix a b :
  substring 0 (String.length a) (a +:+ b) = a.
Proof.
  induction a as [|c a IH]; string_simpl; [by destruct b | by rewrite IH].
Qed.

Lemma comma_free_cons c s :
  config.comma_free (String c s) ↔ c ≠ ","%char ∧ config.comma_free s.
Proof.
  unfold config.comma_free. simpl. rewrite not_elem_of_cons.
  split; intros [? ?]; split; congruence.
Qed.

Lemma comma_free_nil : config.comma_free "".
Proof. unfold config.comma_free. simpl. apply not_elem_of_nil. Qed.

(** A string is its first field followed by nothing or by a comma and the
    rest. *)
Lemma fields_first rest :
  ∃ f tail,
    rest = f +:+ tail ∧ config.comma_free f
    ∧ ((tail = "" ∧ config.fields rest = [f])
       ∨ ∃ r, tail = String "," r
              ∧ config.fields rest = f :: config.fields r).
Proof.
  induction rest as [|c rest IH].
  - exists "", "". split; [done |]. split; [apply comma_free_nil |].
    by left.
  - simpl. destruct (decide (c = ","%char)) as [->|Hc].
    + exists "", (String "," rest). split; [done |].
      split; [apply comma_free_nil |]. right. by exists rest.
    + destruct IH as (f & tail & Hrest & Hfree & Hcase).
      exists (String c f), tail.
      split; [by rewrite string_app_cons, <- Hrest |].
      split; [by apply comma_free_cons |].
      destruct Hcase as [[-> Hf] | (r & -> & Hf)]; rewrite Hf.
      * by left.
      * right. by exists r.
Qed.

Lemma scanEnd_field f tail pre turns :
  config.comma_free f →
  tail = "" ∨ (∃ r, tail = String "," r) →
  (String.length f ≤ turns)%nat →
  config.scanEnd turns (pre +:+ f +:+ tail) (String.length pre)
  = (String.length pre + String.length f)%nat.
Proof.
  revert pre turns. induction f as [|c f IH]; intros pre turns Hfree Htail
    Hturns.
  - rewrite string_app_nil_l. simpl String.length. rewrite Nat.add_0_r.
    destruct turns as [|turns]; [done |].
    simpl config.scanEnd. destruct Htail as [-> | [r ->]].
    + rewrite string_app_nil_r.
      by rewrite (proj2 (Nat.ltb_ge _ _)) by lia.
    + pose proof (string_get_app_r pre (String "," r) 0) as Hget.
      rewrite Nat.add_0_r in Hget. rewrite Hget. simpl String.get.
      rewrite bool_decide_eq_true_2 by done. by rewrite andb_false_r.
  - apply comma_free_cons in Hfree as [Hc Hfree].
    destruct turns as [|turns]; [simpl in Hturns; lia |].
    simpl config.scanEnd.
    pose proof (string_get_app_r pre (String c f +:+ tail) 0) as Hget.
    rewrite Nat.add_0_r in Hget. rewrite Hget.
    rewrite string_app_cons. simpl String.get.
    rewrite bool_decide_eq_false_2 by congruence.
    rewrite (proj2 (Nat.ltb_lt _ _))
      by (rewrite string_length_app; simpl; lia).
    simpl andb. cbv iota.
    replace (pre +:+ String c (f +:+ tail))
      with ((pre +:+ String c "") +:+ f +:+ tail)
      by (by rewrite string_app_assoc).
    replace (S (String.length pre))
      with (String.length (pre +:+ String c ""))
      by (rewrite string_length_app; simpl; lia).
    rewrite IH; [| done | done | simpl in Hturns; lia].
    rewrite string_length_app. simpl. lia.
Qed.

Lemma parseLoop_fields turns rest pre result :
  (String.length rest < turns)%nat →
  config.parseLoop turns (pre +:+ rest) (String.length pre) result
  = result ++ filter (λ x, x ≠ "") (config.fields rest).
Proof.
  revert rest pre result.
  induction turns as [|turns IH]; intros rest pre result Hturns; [lia |].
  simpl config.parseLoop.
  destruct (decide (rest = "")) as [->|Hne].
  { rewrite string_app_nil_r.
    rewrite (proj2 (Nat.ltb_ge _ _)) by lia. simpl.
    rewrite filter_cons, decide_False by (intros Hc; by apply Hc).
    by rewrite filter_nil, app_nil_r. }
  rewrite (proj2 (Nat.ltb_lt _ _))
    by (rewrite string_length_app; destruct rest; simpl; [done | lia]).
  destruct (fields_first rest) as (f & tail & Hrest & Hfree & Hcase).
  assert (Htail : tail = "" ∨ ∃ r, tail = String "," r).
  { destruct Hcase as [[-> _] | (r & -> & _)]; eauto. }
  assert (Hlen : String.length rest
                 = (String.length f + String.length tail)%nat).
  { by rewrite Hrest, string_length_app. }
  cbv zeta.
  assert (Hend : config.scanEnd
                   (String.length (pre +:+ rest) - String.length pre)
                   (pre +:+ rest) (String.length pre)
                 = (String.length pre + String.length f)%nat).
  { rewrite Hrest at 2. apply scanEnd_field; [done | done |].
    rewrite string_length_app. lia. }
  rewrite Hend.
  replace (String.length pre + String.length f - String.length pre)%nat
    with (String.length f) by lia.
  assert (Hsub : substring (String.length pre) (String.length f)
                   (pre +:+ rest) = f).
  { by rewrite Hrest, substring_app_r, substring_prefix. }
  rewrite Hsub.
  set (result' :=
         if (String.length pre <? String.length pre + String.length f)%nat
         then result ++ [f] else result).
  assert (Hresult : result' = result ++ filter (λ x, x ≠ "") [f]).
  { subst result'. rewrite filter_cons, filter_nil.
    destruct f as [|c f].
    - simpl. rewrite Nat.add_0_r, Nat.ltb_irrefl.
      by rewrite app_nil_r.
    - rewrite (proj2 (Nat.ltb_lt _ _)) by (simpl; lia).
      by rewrite decide_True. }
  destruct Hcase as [[-> Hf] | (r & -> & Hf)]; rewrite Hf.
  - rewrite Hresult.
    destruct turns as [|turns']; [done |]. simpl config.parseLoop.
    rewrite (proj2 (Nat.ltb_ge _ _));
      [done | rewrite !string_length_app, Hlen; simpl; lia].
  - assert (Hs : pre +:+ rest = (pre +:+ f +:+ ",") +:+ r).
    { rewrite Hrest. rewrite (string_app_assoc pre).
      rewrite (string_app_assoc f). done. }
    rewrite Hs.
    replace (String.length pre + String.length f + 1)%nat
      with (String.length (pre +:+ f +:+ ","))
      by (rewrite !string_length_app; simpl; lia).
    rewrite IH by (simpl in Hlen; lia).
    rewrite Hresult, <- app_assoc. f_equal.
    by rewrite <- filter_app.
Qed.

Lemma parseStringSlice_filter_fields s :
  config.parseStringSlice s = filter (λ x, x ≠ "") (config.fields s).
Proof.
  unfold config.parseStringSlice. destruct (decide (s = "")) as [->|Hne].
  - simpl. rewrite filter_cons, decide_False by (intros Hc; by apply Hc).
    done.
  - apply (parseLoop_fields (S (String.length s)) s "" []). lia.
Qed.

Lemma fields_comma_free s x :
  x ∈ config.fields s → config.comma_free x.
Proof.
  revert x. induction s as [|c s IH]; intros x; simpl.
  - intros ->%list_elem_of_singleton. apply comma_free_nil.
  - destruct (decide (c = ","%char)).
    + intros [->|?]%elem_of_cons; [apply comma_free_nil | by apply IH].
    + destruct (config.fields s) as [|field more].
      * intros ->%list_elem_of_singleton. apply comma_free_cons.
        split; [done | apply comma_free_nil].
      * intros [->|?]%elem_of_cons.
        -- apply comma_free_cons. split; [done |]. apply IH. by left.
        -- apply IH. by right.
Qed.

(** X24. [parseStringSlice] returns the non-empty fields of the string
    between its commas, in order: no element is empty, none contains a
    comma, and empty fields (two commas in a row, a comma at either end)
    are dropped.  The two loops end: more turns than the bound of the
    model change nothing. *)
Theorem parseStringSlice_nonempty_fields (s : string) :
  config.parseStringSlice s = filter (λ x, x ≠ "") (config.fields s)
  ∧ (∀ x, x ∈ config.parseStringSlice s → x ≠ "" ∧ config.comma_free x)
  ∧ ∀ turns, (String.length s < turns)%nat →
      config.parseLoop turns s 0 [] = config.parseStringSlice s.
Proof.
  split; [apply parseStringSlice_filter_fields |]. split.
  - intros x. rewrite parseStringSlice_filter_fields.
    intros [Hne Hin]%list_elem_of_filter. split; [done |].
    by eapply fields_comma_free.
  - intros turns Hturns. rewrite parseStringSlice_filter_fields.
    by apply (parseLoop_fields turns s "" []).
Qed.

Lemma fields_single x : config.comma_free x → config.fields x = [x].
Proof.
  induction x as [|c x IH]; intros Hfree; [done |].
  apply comma_free_cons in Hfree as [Hc Hfree]. simpl.
  rewrite decide_False by done. by rewrite IH.
Qed.

Lemma fields_then_comma x r :
  config.comma_free x →
  config.fields (x +:+ String "," r) = x :: config.fields r.
Proof.
  induction x as [|c x IH]; intros Hfree; [done |].
  apply comma_free_cons in Hfree as [Hc Hfree].
  rewrite string_app_cons. simpl.
  rewrite decide_False by done. by rewrite IH.
Qed.

Lemma fields_concat l :
  l ≠ [] → Forall config.comma_free l →
  config.fields (String.concat "," l) = l.
Proof.
  induction l as [|x l IH]; intros Hne Hfree; [done |].
  apply Forall_cons in Hfree as [Hx Hfree].
  destruct l as [|y l].
  - simpl. by apply fields_single.
  - change (String.concat "," (x :: y :: l))
      with (x +:+ String "," (String.concat "," (y :: l))).
    rewrite fields_then_comma by done. by rewrite IH.
Qed.

(** X25. Round trip: a list of non-empty strings without commas, joined
    with commas, is parsed back to the same list. *)
Theorem parseStringSlice_concat (l : list string) :
  Forall (λ x, x ≠ "" ∧ config.comma_free x) l →
  config.parseStringSlice (String.concat "," l) = l.
Proof.
  intros Hl. rewrite parseStringSlice_filter_fields.
  destruct l as [|x l]; [done |].
  rewrite fields_concat; [| done |].
  - induction Hl as [|y l' [Hy _] _ IH]; [done |].
    by rewrite filter_cons, decide_True, IH.
  - eapply Forall_impl; [exact Hl |]. by intros y [_ ?].
Qed.

Lemma parseStringSlice_concat_witness :
  config.parseStringSlice "http://localhost:5173,https://gate.example"
  = ["http://localhost:5173"; "https://gate.example"].
Proof.
  apply (parseStringSlice_concat
           ["http://localhost:5173"; "https://gate.example"]).
  apply Forall_cons. split.
  { split; [discriminate |]. unfold config.comma_free.
    intros Hin. apply list_elem_of_In in Hin. simpl in Hin.
    repeat (destruct Hin as [Hin|Hin]; [discriminate |]). exact Hin. }
  apply Forall_cons. split; [| apply Forall_nil_2].
  split; [discriminate |]. unfold config.comma_free.
  intros Hin. apply list_elem_of_In in Hin. simpl in Hin.
  repeat (destruct Hin as [Hin|Hin]; [discriminate |]). exact Hin.
Defined.

(** ** Login *)

Lemma GetUserByUsername_cases d username :
  (∃ user k, users d !! k = Some user ∧ Username user = username
             ∧ GetUserByUsername d username = (advance d, inl user))
  ∨ ∃ err, GetUserByUsername d username = (advance d, inr err).
Proof.
  unfold GetUserByUsername. rewrite call_advance.
  destruct (call d).1; [| by eauto].
  rewrite advance_users.
  destruct (filter _ _) as [|x l] eqn:Hf; [by eauto |].
  assert (x ∈ filter (λ user, Username user = username)
                (Documents (users d))) as Hin by (rewrite Hf; left).
  apply list_elem_of_filter in Hin as [Hname Hin].
  apply elem_of_Documents in Hin as [k Hk].
  left. by exists x, k.
Qed.

Lemma GetPasswordHash_cases d userID :
  (∃ doc, passwords d !! userID = Some doc
          ∧ GetPasswordHash d userID = (advance d, inl (password_hash doc)))
  ∨ ∃ err, GetPasswordHash d userID = (advance d, inr err).
Proof.
  unfold GetPasswordHash. rewrite call_advance.
  destruct (call d).1; [| by eauto].
  rewrite advance_passwords. destruct (passwords d !! userID); eauto.
Qed.

Lemma GetPasswordHash_healthy d userID :
  outcomes d = [] →
  GetPasswordHash d userID
  = (d, match passwords d !! userID with
        | Some doc => inl (password_hash doc)
        | None => inr (failed "failed to get password hash")
        end).
Proof.
  intros Hd. unfold GetPasswordHash. rewrite call_healthy by done.
  by destruct (passwords d !! userID).
Qed.

(** X26. Login does not tell why it refuses: whenever it answers with
    status 401 the message is the same and no collection has changed; and
    when the store answers, an unknown username, a user without a
    password document and a password that the comparison does not accept
    all get that one answer. *)
Theorem Login_refusals_alike
    (compare : string → string → login.CompareOutcome)
    (GenerateToken GenerateRefreshToken : User → option string)
    (d : FirestoreDB) (now : Time) (r : Request login.LoginRequest) :
  let answer :=
    login.Login compare GenerateToken GenerateRefreshToken d now r in
  (status answer.2 = StatusUnauthorized →
   answer.2 = Error "Invalid username or password" StatusUnauthorized
   ∧ entries answer.1 = entries d ∧ users answer.1 = users d
   ∧ passwords answer.1 = passwords d)
  ∧ ∀ req,
      outcomes d = [] → Method r = "POST" → Body r = Some req →
      login.loginUsername req ≠ "" → login.loginPassword req ≠ "" →
      (∀ user, GetUserByUsername d (login.loginUsername req)
               = (d, inl user) →
         ∀ doc, passwords d !! UserID user = Some doc →
           compare (password_hash doc) (login.loginPassword req)
           ≠ login.Matches) →
      answer = (d, Error "Invalid username or password" StatusUnauthorized).
Proof.
  intros answer. subst answer. unfold login.Login. split.
  - destruct (decide (Method r ≠ "POST")); [discriminate |].
    destruct (Body r) as [req|]; [| discriminate].
    destruct (decide (login.loginUsername req = ""
                      ∨ login.loginPassword req = "")); [discriminate |].
    destruct (GetUserByUsername_cases d (login.loginUsername req))
      as [(user & k & _ & _ & ->) | (err & ->)];
      [| intros _; simpl;
         by rewrite advance_entries, advance_users, advance_passwords].
    destruct (GetPasswordHash_cases (advance d) (UserID user))
      as [(doc & _ & ->) | (err & ->)];
      [| intros _; simpl;
         by rewrite !advance_entries, !advance_users, !advance_passwords].
    destruct (login.CheckPassword compare _ _);
      [intros _; simpl;
       by rewrite !advance_entries, !advance_users, !advance_passwords |].
    cbv zeta. destruct (GenerateToken _); [| discriminate].
    destruct (GenerateRefreshToken _); discriminate.
  - intros req Hd Hm Hreq Hname Hpw Hbad.
    rewrite decide_False by (intros Hc; by apply Hc). rewrite Hreq.
    rewrite decide_False by (by intros [?|?]).
    pose proof (GetUserByUsername_healthy d (login.loginUsername req) Hd)
      as Hsame.
    destruct (GetUserByUsername d (login.loginUsername req))
      as [d0 [user|err]] eqn:Hget; simpl in Hsame; subst d0; [| done].
    rewrite GetPasswordHash_healthy by done.
    destruct (passwords d !! UserID user) as [doc|] eqn:Hdoc; [| done].
    unfold login.CheckPassword.
    pose proof (Hbad user eq_refl doc Hdoc) as Hno.
    by destruct (compare (password_hash doc) (login.loginPassword req)).
Qed.

Lemma Login_refusals_alike_witness :
  login.Login sample_compare sample_token sample_token login_db 9
    (public_request "POST" wrong_password)
  = (login_db, Error "Invalid username or password" StatusUnauthorized)
  ∧ login.Login sample_compare sample_token sample_token login_db 9
      (public_request "POST" unknown_user)
    = (login_db, Error "Invalid username or password" StatusUnauthorized).
Proof.
  split.
  - destruct (Login_refusals_alike sample_compare sample_token
                sample_token login_db 9
                (public_request "POST" wrong_password)) as [_ Hsame].
    apply (Hsame wrong_password).
    + reflexivity.
    + reflexivity.
    + reflexivity.
    + intros [=].
    + intros [=].
    + intros user Huser doc Hdoc. vm_compute in Huser.
      injection Huser as <-. vm_compute in Hdoc. injection Hdoc as <-.
      vm_compute. intros [=].
  - destruct (Login_refusals_alike sample_compare sample_token
                sample_token login_db 9
                (public_request "POST" unknown_user)) as [_ Hsame].
    apply (Hsame unknown_user).
    + reflexivity.
    + reflexivity.
    + reflexivity.
    + intros [=].
    + intros [=].
    + intros user Huser. vm_compute in Huser. inversion Huser.
Defined.


